(** * junk-estimator: the loose JSON extractor and the admission gate

    A shallow embedding of [api/estimate.ts] (the estimate handler and its
    helpers), of [lib/extractJsonLoose] and of the upload-signing handler
    ([api/blob/sign]), with the properties the specification states about
    them.

    Conventions.
    - A JavaScript string is the list of its UTF-16 code units ([jsstring]),
      so [length], [indexOf], [slice], [trim] and the regular expressions
      below work on exactly the units the program sees.
    - [Date.now()] and the outcome of every outbound call (the model, the
      blob store, the upload library) are inputs of the run of a handler.
    - The process-local caches ([rateCache], [batchCounts]) are threaded
      through the handlers as explicit state. *)

From Stdlib Require Import List NArith ZArith QArith Bool String Ascii Lia.
Import ListNotations.

Local Open Scope N_scope.

(* ================================================================== *)
(** * JavaScript strings *)

Definition jsstring := list N.

(** A string literal of the source (ASCII only). *)
Definition lit (s : string) : jsstring :=
  List.map N_of_ascii (list_ascii_of_string s).

(** A literal written with ['] where the text has a quotation mark. *)
Definition qlit (s : string) : jsstring :=
  List.map (fun c => if c =? 39 then 34 else c) (lit s).

Fixpoint str_eqb (a b : jsstring) : bool :=
  match a, b with
  | [], [] => true
  | x :: a', y :: b' => (x =? y) && str_eqb a' b'
  | _, _ => false
  end.

(** ECMAScript WhiteSpace and LineTerminator code units: what [\s] matches
    and what [String.prototype.trim] strips. *)
Definition is_js_space (c : N) : bool :=
  ((9 <=? c) && (c <=? 13)) || (c =? 32) || (c =? 160) || (c =? 5760)
  || ((8192 <=? c) && (c <=? 8202)) || (c =? 8232) || (c =? 8233)
  || (c =? 8239) || (c =? 8287) || (c =? 12288) || (c =? 65279).

Fixpoint drop_space (s : jsstring) : jsstring :=
  match s with
  | c :: s' => if is_js_space c then drop_space s' else s
  | [] => []
  end.

(** [s.trim()] *)
Definition trim (s : jsstring) : jsstring :=
  rev (drop_space (rev (drop_space s))).

(** [s.split(sep)] for a one-unit separator; the result is never empty. *)
Fixpoint split_on (sep : N) (s : jsstring) : list jsstring :=
  match s with
  | [] => [[]]
  | c :: s' =>
      if c =? sep then [] :: split_on sep s'
      else match split_on sep s' with
           | h :: t => (c :: h) :: t
           | [] => [[c]]
           end
  end.

(** [s.split(sep)[0]] *)
Definition split_first (sep : N) (s : jsstring) : jsstring :=
  hd [] (split_on sep s).

(** [p] is a prefix of [s]. *)
Fixpoint starts_with (p s : jsstring) : bool :=
  match p, s with
  | [], _ => true
  | x :: p', y :: s' => (x =? y) && starts_with p' s'
  | _ :: _, [] => false
  end.

(** Canonicalisation of a code unit under the [i] flag (no [u] flag): the
    ASCII letters fold to upper case; a unit outside ASCII never folds to an
    ASCII one, so against an ASCII pattern only the ASCII folding counts. *)
Definition canonicalize (c : N) : N :=
  if (97 <=? c) && (c <=? 122) then c - 32 else c.

(** [p] is a prefix of [s] up to ASCII case. *)
Fixpoint starts_with_ci (p s : jsstring) : bool :=
  match p, s with
  | [], _ => true
  | x :: p', y :: s' =>
      (canonicalize x =? canonicalize y) && starts_with_ci p' s'
  | _ :: _, [] => false
  end.

(** [re.test(s)] for a pattern that is a plain ASCII word under [/i]. *)
Fixpoint test_ci (p s : jsstring) : bool :=
  starts_with_ci p s ||
  match s with
  | [] => false
  | _ :: s' => test_ci p s'
  end.

(* ================================================================== *)
(** * JSON values *)

(** The decimal a JSON number literal denotes: [(-1)^neg * mant * 10^exp10].
    Rounding to a double is outside the model. *)
Record decimal := Decimal { dneg : bool; dmant : N; dexp10 : Z }.

#[warnings="-register-all"]
Inductive json :=
| JNull
| JBool (b : bool)
| JNumber (d : decimal)
| JString (s : jsstring)
| JArray (items : list json)
| JObject (fields : list (jsstring * json)).

(** Own-property lookup on the association list of an object. *)
Fixpoint assoc {A : Type} (k : jsstring) (l : list (jsstring * A)) : option A :=
  match l with
  | [] => None
  | (k', v) :: l' => if str_eqb k k' then Some v else assoc k l'
  end.

(** Defining a data property: an existing key keeps its place and takes the
    new value, a new key goes last. *)
Fixpoint define_property {A : Type} (k : jsstring) (v : A)
    (l : list (jsstring * A)) : list (jsstring * A) :=
  match l with
  | [] => [(k, v)]
  | (k', v') :: l' =>
      if str_eqb k k' then (k', v) :: l'
      else (k', v') :: define_property k v l'
  end.

(** [j?.[k]]: [None] is [undefined]. *)
Definition get_field (k : jsstring) (j : json) : option json :=
  match j with
  | JObject fields => assoc k fields
  | _ => None
  end.

(* ================================================================== *)
(** * [JSON.parse] *)

Module JSONText.

Definition is_ws (c : N) : bool :=
  (c =? 32) || (c =? 9) || (c =? 10) || (c =? 13).

Fixpoint skip_ws (s : jsstring) : jsstring :=
  match s with
  | c :: s' => if is_ws c then skip_ws s' else s
  | [] => []
  end.

Definition is_digit (c : N) : bool := (48 <=? c) && (c <=? 57).

Definition hex_val (c : N) : option N :=
  if is_digit c then Some (c - 48)
  else if (97 <=? c) && (c <=? 102) then Some (c - 87)
  else if (65 <=? c) && (c <=? 70) then Some (c - 55)
  else None.

(** The characters of a string literal after its opening quote. *)
Fixpoint string_body (s : jsstring) : option (jsstring * jsstring) :=
  match s with
  | [] => None
  | 34 :: rest => Some ([], rest)
  | 92 :: 117 :: a :: b :: c :: d :: rest =>
      match hex_val a, hex_val b, hex_val c, hex_val d with
      | Some a', Some b', Some c', Some d' =>
          match string_body rest with
          | Some (str, rest') =>
              Some (((a' * 16 + b') * 16 + c') * 16 + d' :: str, rest')
          | None => None
          end
      | _, _, _, _ => None
      end
  | 92 :: e :: rest =>
      let unit :=
        match e with
        | 34 => Some 34 | 92 => Some 92 | 47 => Some 47
        | 98 => Some 8 | 102 => Some 12 | 110 => Some 10
        | 114 => Some 13 | 116 => Some 9
        | _ => None
        end in
      match unit, string_body rest with
      | Some u, Some (str, rest') => Some (u :: str, rest')
      | _, _ => None
      end
  | c :: rest =>
      if (c <? 32) || (c =? 92) then None
      else match string_body rest with
           | Some (str, rest') => Some (c :: str, rest')
           | None => None
           end
  end.

(** A run of digits: their value, their count, the rest. *)
Fixpoint digits (acc : N) (n : nat) (s : jsstring) : N * nat * jsstring :=
  match s with
  | c :: s' =>
      if is_digit c then digits (acc * 10 + (c - 48)) (S n) s'
      else (acc, n, s)
  | [] => (acc, n, [])
  end.

(** An optional minus sign; the integer part, [0] or a digit run with no
    leading zero; an optional fraction of a dot and at least one digit; an
    optional exponent of [e] or [E], an optional sign and at least one
    digit. *)
Definition number (s : jsstring) : option (decimal * jsstring) :=
  let (neg, s1) :=
    match s with 45 :: r => (true, r) | _ => (false, s) end in
  let int_part :=
    match s1 with
    | 48 :: r => Some (0, r)
    | c :: _ =>
        if is_digit c then
          let '(v, _, r) := digits 0 0%nat s1 in Some (v, r)
        else None
    | [] => None
    end in
  match int_part with
  | None => None
  | Some (iv, s2) =>
      let frac :=
        match s2 with
        | 46 :: r =>
            let '(v, n, r') := digits iv 0%nat r in
            if (n =? 0)%nat then None else Some (v, Z.of_nat n, r')
        | _ => Some (iv, 0%Z, s2)
        end in
      match frac with
      | None => None
      | Some (m, fd, s3) =>
          let with_exp (r : jsstring) (eneg : bool) :=
            let '(v, n, r') := digits 0 0%nat r in
            if (n =? 0)%nat then None
            else
              let e := if eneg then (- Z.of_N v)%Z else Z.of_N v in
              Some (Decimal neg m (e - fd), r') in
          match s3 with
          | 101 :: r | 69 :: r =>
              match r with
              | 43 :: r' => with_exp r' false
              | 45 :: r' => with_exp r' true
              | _ => with_exp r false
              end
          | _ => Some (Decimal neg m (- fd), s3)
          end
      end
  end.

(** Recursive descent; one unit of fuel per value, element and member. *)
Fixpoint value (fuel : nat) (s : jsstring) : option (json * jsstring) :=
  match fuel with
  | O => None
  | S fuel' =>
      match s with
      | 123 :: r =>
          match skip_ws r with
          | 125 :: r' => Some (JObject [], r')
          | _ => members fuel' [] r
          end
      | 91 :: r =>
          match skip_ws r with
          | 93 :: r' => Some (JArray [], r')
          | _ => elements fuel' [] r
          end
      | 34 :: r =>
          match string_body r with
          | Some (str, r') => Some (JString str, r')
          | None => None
          end
      | 116 :: 114 :: 117 :: 101 :: r => Some (JBool true, r)
      | 102 :: 97 :: 108 :: 115 :: 101 :: r => Some (JBool false, r)
      | 110 :: 117 :: 108 :: 108 :: r => Some (JNull, r)
      | _ =>
          match number s with
          | Some (d, r) => Some (JNumber d, r)
          | None => None
          end
      end
  end

with elements (fuel : nat) (acc : list json) (s : jsstring)
    : option (json * jsstring) :=
  match fuel with
  | O => None
  | S fuel' =>
      match value fuel' (skip_ws s) with
      | Some (v, r) =>
          match skip_ws r with
          | 44 :: r' => elements fuel' (acc ++ [v]) r'
          | 93 :: r' => Some (JArray (acc ++ [v]), r')
          | _ => None
          end
      | None => None
      end
  end

with members (fuel : nat) (acc : list (jsstring * json)) (s : jsstring)
    : option (json * jsstring) :=
  match fuel with
  | O => None
  | S fuel' =>
      match skip_ws s with
      | 34 :: r =>
          match string_body r with
          | Some (k, r1) =>
              match skip_ws r1 with
              | 58 :: r2 =>
                  match value fuel' (skip_ws r2) with
                  | Some (v, r3) =>
                      match skip_ws r3 with
                      | 44 :: r4 => members fuel' (define_property k v acc) r4
                      | 125 :: r4 => Some (JObject (define_property k v acc), r4)
                      | _ => None
                      end
                  | None => None
                  end
              | _ => None
              end
          | None => None
          end
      | _ => None
      end
  end.

(** [JSON.parse(s)]: [None] when it throws a [SyntaxError]. *)
Definition parse (s : jsstring) : option json :=
  match value (S (List.length s)) (skip_ws s) with
  | Some (v, r) =>
      match skip_ws r with
      | [] => Some v
      | _ => None
      end
  | None => None
  end.

End JSONText.

Definition JSON_parse := JSONText.parse.

(* ================================================================== *)
(** * The loose JSON extractor ([extractJsonLoose]) *)

Definition fence_open : jsstring := Eval cbv in lit "```json".
Definition fence_close : jsstring := Eval cbv in lit "```".

(** The lazy group and the closing marker of the fence pattern, matched at
    the head of [s]: the capture ends at the first closing marker. *)
Fixpoint lazy_to_close (s : jsstring) : option jsstring :=
  if starts_with fence_close s then Some []
  else match s with
       | [] => None
       | c :: s' => option_map (cons c) (lazy_to_close s')
       end.

(** The fence pattern (opening marker with its label under [/i], lazy
    capture of any units, closing marker) matched at the head of [s]. *)
Definition fence_at (s : jsstring) : option jsstring :=
  if starts_with_ci fence_open s
  then lazy_to_close (skipn (List.length fence_open) s)
  else None.

(** [re.exec(text)] for the fence pattern: the leftmost start that matches;
    the result is capture group 1. *)
Fixpoint fence_exec (text : jsstring) : option jsstring :=
  match fence_at text with
  | Some interior => Some interior
  | None =>
      match text with
      | [] => None
      | _ :: text' => fence_exec text'
      end
  end.

(** [text.indexOf(c)] *)
Fixpoint indexOf (c : N) (text : jsstring) : option nat :=
  match text with
  | [] => None
  | x :: text' => if x =? c then Some O else option_map S (indexOf c text')
  end.

(** [text.lastIndexOf(c)] *)
Fixpoint lastIndexOf (c : N) (text : jsstring) : option nat :=
  match text with
  | [] => None
  | x :: text' =>
      match lastIndexOf c text' with
      | Some i => Some (S i)
      | None => if x =? c then Some O else None
      end
  end.

(** [text.slice(a, b)] for [0 <= a <= b]. *)
Definition slice (a b : nat) (text : jsstring) : jsstring :=
  firstn (b - a) (skipn a text).

(** The fallback candidate: from the first opening brace to the last closing
    brace, when the latter comes after the former. *)
Definition brace_span (text : jsstring) : option jsstring :=
  match indexOf 123 text, lastIndexOf 125 text with
  | Some first, Some last =>
      if (first <? last)%nat then Some (slice first (last + 1) text) else None
  | _, _ => None
  end.

(** The pattern of a comma, any white space and the unit [close], matched at
    the head of [s]: what follows the match. *)
Definition comma_close_at (close : N) (s : jsstring) : option jsstring :=
  match s with
  | 44 :: s' =>
      match drop_space s' with
      | c :: rest => if c =? close then Some rest else None
      | [] => None
      end
  | _ => None
  end.

(** Replacing every match of that pattern by [close] alone, left to right;
    [fuel] bounds the number of steps. *)
Fixpoint replace_comma_close (fuel : nat) (close : N) (s : jsstring) : jsstring :=
  match fuel with
  | O => s
  | S fuel' =>
      match s with
      | [] => []
      | c :: s' =>
          match comma_close_at close s with
          | Some rest => close :: replace_comma_close fuel' close rest
          | None => c :: replace_comma_close fuel' close s'
          end
      end
  end.

(** The trailing-comma repair: first before a closing brace, then before a
    closing bracket. *)
Definition repair (raw : jsstring) : jsstring :=
  let r1 := replace_comma_close (List.length raw) 125 raw in
  replace_comma_close (List.length r1) 93 r1.

Section Extractor.

(** [JSON.parse], [None] when it throws. *)
Variable parse : jsstring -> option json.

(** The two parse attempts on a candidate; [JNull] is JavaScript's [null],
    also the outcome when nothing is extracted. *)
Definition parse_loose (raw : jsstring) : json :=
  match parse raw with
  | Some v => v
  | None =>
      match parse (repair raw) with
      | Some v => v
      | None => JNull
      end
  end.

Definition extractJsonLoose (text : jsstring) : json :=
  let candidate := fence_exec text in
  let raw :=
    match candidate with
    | Some c => Some c
    | None => brace_span text
    end in
  match raw with
  | None => JNull
  | Some [] => JNull
  | Some r => parse_loose r
  end.

End Extractor.

(* ================================================================== *)
(** * The bounded cache ([lru-cache]) *)

(** [new LRUCache({ max, ttl })] as the handlers use it: at most [max]
    entries, the least recently used one evicted first; [get] and [set] both
    make their key the most recent; with a time-to-live an entry is stale
    once more than [ttl] has passed since it was last set, and a stale entry
    is dropped by the [get] that finds it. A cache is the list of its
    entries, most recent first. *)
Module LRU.

Record options := { max : nat; ttl : option Z }.

Record entry (V : Type) := Entry { key : jsstring; value : V; start : Z }.
Arguments Entry {V}.
Arguments key {V}.
Arguments value {V}.
Arguments start {V}.

Definition t (V : Type) := list (entry V).

Fixpoint find {V} (k : jsstring) (l : t V) : option (entry V) :=
  match l with
  | [] => None
  | e :: l' => if str_eqb k (key e) then Some e else find k l'
  end.

Fixpoint remove {V} (k : jsstring) (l : t V) : t V :=
  match l with
  | [] => []
  | e :: l' => if str_eqb k (key e) then remove k l' else e :: remove k l'
  end.

(** An entry is stale when its life is over; a life of zero and a start
    that reads zero both mean that it never expires. *)
Definition stale {V} (o : options) (now : Z) (e : entry V) : bool :=
  match ttl o with
  | Some life =>
      (negb (life =? 0) && negb (start e =? 0) && (life <? now - start e))%Z
  | None => false
  end.

(** [cache.get(k)] at clock reading [now]. *)
Definition get {V} (o : options) (now : Z) (k : jsstring) (c : t V)
    : option V * t V :=
  match find k c with
  | None => (None, c)
  | Some e =>
      if stale o now e then (None, remove k c)
      else (Some (value e), e :: remove k c)
  end.

(** [cache.set(k, v)] at clock reading [now]. *)
Definition set {V} (o : options) (now : Z) (k : jsstring) (v : V) (c : t V)
    : t V :=
  firstn (max o) (Entry k v now :: remove k c).

End LRU.

(* ================================================================== *)
(** * Configuration *)

(** The environment variables the handlers read. A numeric variable is given
    by the integer it holds. *)
Record Env := {
  ALLOWED_ORIGINS : option jsstring;
  FALLBACK_CUSTOMER_LINE : option jsstring;
  MAX_FILES_var : option Z;
  MAX_FILE_MB_var : option Z;
  MAX_TOTAL_MB_var : option Z
}.

(** [x || d] on an optional string: the empty string is falsy. *)
Definition or_else (x : option jsstring) (d : jsstring) : jsstring :=
  match x with
  | Some (c :: s) => c :: s
  | _ => d
  end.

Definition nonempty (s : jsstring) : bool :=
  match s with [] => false | _ => true end.

(** The variable, or the empty string, split at the commas, each part
    trimmed, the empty parts dropped. *)
Definition allowedOrigins (env : Env) : list jsstring :=
  filter nonempty (List.map trim (split_on 44 (or_else (ALLOWED_ORIGINS env) []))).

Definition default_fallback_line : jsstring := Eval cbv in
    lit "Sorry" ++ [8212] ++
    lit "we couldn't generate a quote right now. Please text 860-207-5259 with your message and photos for a fast manual quote.".

Definition FALLBACK_LINE (env : Env) : jsstring :=
  or_else (FALLBACK_CUSTOMER_LINE env) default_fallback_line.

Definition number_or (x : option Z) (d : Z) : Z :=
  match x with Some n => n | None => d end.

Definition MAX_FILES (env : Env) : Z := number_or (MAX_FILES_var env) 12.
Definition MAX_FILE_MB (env : Env) : Z := number_or (MAX_FILE_MB_var env) 12.
Definition MAX_TOTAL_MB (env : Env) : Z := number_or (MAX_TOTAL_MB_var env) 60.

Definition RATE_MAX : nat := 5.
Definition RATE_WINDOW_MS : Z := 10 * 60 * 1000.

Definition try_again_line : jsstring := Eval cbv in
    lit "We couldn" ++ [8217] ++
    lit "t process your request right now. Please try again in a few minutes.".

(* ================================================================== *)
(** * Requests, responses and the helpers both handlers share *)

Record Request := {
  method : jsstring;
  origin : option jsstring;            (* req.headers.origin *)
  x_forwarded_for : option jsstring;   (* req.headers["x-forwarded-for"] *)
  remoteAddress : option jsstring;     (* req.socket.remoteAddress *)
  body : jsstring                      (* the request body, read to its end *)
}.

Definition includes (l : list jsstring) (s : jsstring) : bool :=
  existsb (str_eqb s) l.

(** [getIP] *)
Definition getIP (req : Request) : jsstring :=
  let xf := or_else (x_forwarded_for req) [] in
  trim (or_else (Some (split_first 44 xf))
          (or_else (remoteAddress req) (lit "unknown"))).

Definition RateCache := LRU.t (list Z).

(** [{ max: 5000 }] *)
Definition rateCache_options : LRU.options := LRU.Build_options 5000 None.

(** The instants recorded for [ip]. *)
Definition recorded (ip : jsstring) (cache : RateCache) : list Z :=
  match LRU.find ip cache with
  | Some e => LRU.value e
  | None => []
  end.

(** The instants of [arr] inside the window that ends at [now]. *)
Definition in_window (now : Z) (arr : list Z) : list Z :=
  filter (fun t => (now - t <? RATE_WINDOW_MS)%Z) arr.

(** [rateLimit(ip)] when [Date.now()] reads [now]. *)
Definition rateLimit (now : Z) (ip : jsstring) (cache : RateCache)
    : bool * RateCache :=
  let (got, cache1) := LRU.get rateCache_options now ip cache in
  let arr := in_window now (match got with Some a => a | None => [] end) in
  if (RATE_MAX <=? List.length arr)%nat then (false, cache1)
  else (true, LRU.set rateCache_options now ip (arr ++ [now]) cache1).

(** [readJson]: the body parsed, an empty body read as an empty object;
    [None] when the promise rejects. *)
Definition readJson (parse : jsstring -> option json) (req : Request)
    : option json :=
  parse (or_else (Some (body req)) (lit "{}")).

(* ================================================================== *)
(** * Body validation ([BodySchema], a [zod] schema) *)

Module Zod.

Inductive IssueCode := invalid_type | too_small | too_big | invalid_string.

Inductive PathElem := Key (k : jsstring) | Index (i : nat).

Record Issue := { code : IssueCode; path : list PathElem }.

(** [z.string().trim().min(lo).max(hi)] on the value at [p]; [None] is
    [undefined]. The bounds apply to the trimmed string. *)
Definition string_trim_min_max (lo hi : nat) (p : list PathElem)
    (v : option json) : list Issue * jsstring :=
  match v with
  | Some (JString s) =>
      let s' := trim s in
      ((if (List.length s' <? lo)%nat then [Build_Issue too_small p] else [])
       ++ (if (hi <? List.length s')%nat then [Build_Issue too_big p] else []),
       s')
  | _ => ([Build_Issue invalid_type p], [])
  end.

Section Url.

(** Whether [new URL(s)] accepts [s]. *)
Variable is_url : jsstring -> bool.

(** [z.string().url()] on the elements of an array, from index [i]. *)
Fixpoint url_items (p : list PathElem) (i : nat) (l : list json)
    : list Issue * list jsstring :=
  match l with
  | [] => ([], [])
  | v :: l' =>
      let (issues, urls) := url_items p (S i) l' in
      match v with
      | JString s =>
          ((if is_url s then [] else [Build_Issue invalid_string (p ++ [Index i])])
           ++ issues, s :: urls)
      | _ => (Build_Issue invalid_type (p ++ [Index i]) :: issues, urls)
      end
  end.

(** [z.array(z.string().url()).max(hi)] on the value at [p]. *)
Definition url_array_max (hi : Z) (p : list PathElem) (v : option json)
    : list Issue * list jsstring :=
  match v with
  | Some (JArray l) =>
      let (issues, urls) := url_items p O l in
      ((if (hi <? Z.of_nat (List.length l))%Z then [Build_Issue too_big p] else [])
       ++ issues, urls)
  | _ => ([Build_Issue invalid_type p], [])
  end.

End Url.

End Zod.

Record RequestBody := {
  zip : jsstring;
  description : jsstring;
  image_urls : list jsstring
}.

(** [BodySchema.safeParse(body)]: the parsed data, or the issues found. The
    fields are checked in the order of the schema, each at its own path; a
    body that is not an object gives one issue at the empty path. *)
Definition BodySchema_safeParse (is_url : jsstring -> bool) (env : Env)
    (body : json) : RequestBody + list Zod.Issue :=
  match body with
  | JObject fields =>
      let (i1, z) :=
        Zod.string_trim_min_max 5 10 [Zod.Key (lit "zip")]
          (assoc (lit "zip") fields) in
      let (i2, d) :=
        Zod.string_trim_min_max 3 5000 [Zod.Key (lit "description")]
          (assoc (lit "description") fields) in
      let (i3, u) :=
        Zod.url_array_max is_url (MAX_FILES env) [Zod.Key (lit "image_urls")]
          (assoc (lit "image_urls") fields) in
      match i1 ++ i2 ++ i3 with
      | [] => inl {| zip := z; description := d; image_urls := u |}
      | issues => inr issues
      end
  | _ => inr [Zod.Build_Issue Zod.invalid_type []]
  end.

(* ================================================================== *)
(** * The estimate handler ([api/estimate.ts]) *)

Inductive Content :=
| NoContent
| Plain (text : jsstring)
| CustomerLine (customer_line : jsstring)
| Invalid (customer_line : jsstring) (error : list Zod.Issue)
| Quote (serviceable : bool) (customer_line : jsstring) (data : json).

Record Response := {
  statusCode : nat;
  allow_origin : option jsstring;   (* Access-Control-Allow-Origin, if set *)
  content : Content
}.

(** What the outside world does during one run of the handler. *)
Record Run := {
  date_now : Z;
    (* Date.now() in rateLimit *)
  model_output : option (option jsstring);
    (* openai.responses.create: None when it throws, else resp.output_text *)
  put_ok : bool
    (* whether the blob store accepts the record *)
}.

Module Estimate.

(** [setCors]: the origin echoed in [Access-Control-Allow-Origin]. *)
Definition setCors (env : Env) (origin : option jsstring) : option jsstring :=
  match origin with
  | Some (c :: o) =>
      if includes (allowedOrigins env) (c :: o) then Some (c :: o) else None
  | _ => None
  end.

(** [!origin || !allowedOrigins.includes(origin)] *)
Definition origin_rejected (env : Env) (origin : option jsstring) : bool :=
  match origin with
  | Some (c :: o) => negb (includes (allowedOrigins env) (c :: o))
  | _ => true
  end.

Section Handler.

Variable parse : jsstring -> option json.
Variable is_url : jsstring -> bool.
Variable env : Env.

(** The body of the [catch] clause. *)
Definition fallback : nat * Content :=
  (200%nat, Quote true (FALLBACK_LINE env) (JObject [])).

(** [text]: the model's output, trimmed; an absent output is empty. *)
Definition model_text (output : option jsstring) : jsstring :=
  match output with
  | Some s => trim s
  | None => []
  end.

(** [customer_line] as first computed from [text]. *)
Definition first_customer_line (text : jsstring) : jsstring :=
  trim (or_else (Some (split_first 10 text)) (FALLBACK_LINE env)).

(** [serviceable] *)
Definition serviceable_of (parsedJson : json) (customer_line : jsstring) : bool :=
  match get_field (lit "serviceable") parsedJson with
  | Some (JBool b) => b
  | _ => negb (test_ci (lit "outside") customer_line)
  end.

(** [parsedJson ?? {}] *)
Definition data_of (parsedJson : json) : json :=
  match parsedJson with
  | JNull => JObject []
  | j => j
  end.

(** The [try] block from the model's answer on. *)
Definition answer (run : Run) (output : option jsstring) : nat * Content :=
  let text := model_text output in
  let customer_line := first_customer_line text in
  let parsedJson := extractJsonLoose parse text in
  let serviceable := serviceable_of parsedJson customer_line in
  if put_ok run then
    let customer_line' :=
      or_else (Some customer_line) (FALLBACK_LINE env) in
    (200%nat, Quote serviceable customer_line' (data_of parsedJson))
  else fallback.

(** The [try] block: body, validation, model call, storage. *)
Definition estimate (run : Run) (req : Request) : nat * Content :=
  match readJson parse req with
  | None => fallback
  | Some b =>
      match BodySchema_safeParse is_url env b with
      | inr issues => (400%nat, Invalid try_again_line issues)
      | inl _ =>
          match model_output run with
          | None => fallback
          | Some output => answer run output
          end
      end
  end.

Definition handler (run : Run) (req : Request) (rateCache : RateCache)
    : RateCache * Response :=
  let cors := setCors env (origin req) in
  if str_eqb (method req) (lit "OPTIONS") then
    (rateCache, Build_Response 204 cors NoContent)
  else if negb (str_eqb (method req) (lit "POST")) then
    (rateCache, Build_Response 405 cors (Plain (lit "Method Not Allowed")))
  else if origin_rejected env (origin req) then
    (rateCache, Build_Response 403 cors (Plain (lit "Forbidden")))
  else
    let ip := getIP req in
    let (admitted, rateCache') := rateLimit (date_now run) ip rateCache in
    if negb admitted then
      (rateCache', Build_Response 429 cors (CustomerLine try_again_line))
    else
      let (status, c) := estimate run req in
      (rateCache', Build_Response status cors c).

End Handler.

End Estimate.

(* ================================================================== *)
(** * The upload-signing handler ([api/blob/sign]) *)

Module Sign.

(** [meta]: the client payload once decoded (the [JSON.parse] of
    [clientPayload], or the empty object when there is no payload or it does
    not parse), at the type the source declares for it: four optional
    fields. Sizes are in bytes. *)
Record Meta := {
  size : option Q;
  batchTotal : option Q;
  type : option jsstring;
  batchId : option jsstring
}.

Definition no_meta : Meta := Build_Meta None None None None.

Inductive Refusal := FileTooLarge | BatchTooLarge | TooManyFiles.

Definition BatchCounts := LRU.t Z.

(** [{ max: 5000, ttl: RATE_WINDOW_MS }] *)
Definition batchCounts_options : LRU.options :=
  LRU.Build_options 5000 (Some RATE_WINDOW_MS).

(** The count stored for [id], stale or not. *)
Definition stored_count (id : jsstring) (counts : BatchCounts) : option Z :=
  option_map LRU.value (LRU.find id counts).

(** [x ? x / (1024 * 1024) : 0] *)
Definition megabytes (x : option Q) : Q :=
  match x with
  | Some q => if Qeq_bool q 0 then 0%Q else (q / inject_Z (1024 * 1024))%Q
  | None => 0%Q
  end.

(** [a > b] *)
Definition Qgtb (a b : Q) : bool := negb (Qle_bool a b).

Section Handler.

Variable env : Env.

(** [onBeforeGenerateToken]: [None] when the token options are
    returned, [Some r] when it throws. [clock] is the reading of the
    cache's clock. *)
Definition onBeforeGenerateToken (clock : Z) (meta : Meta)
    (batchCounts : BatchCounts) : BatchCounts * option Refusal :=
  let sizeMB := megabytes (size meta) in
  let totalMB := megabytes (batchTotal meta) in
  if Qgtb sizeMB (inject_Z (MAX_FILE_MB env)) then
    (batchCounts, Some FileTooLarge)
  else if Qgtb totalMB (inject_Z (MAX_TOTAL_MB env)) then
    (batchCounts, Some BatchTooLarge)
  else
    let id := or_else (batchId meta) [] in
    if nonempty id then
      let (got, counts1) := LRU.get batchCounts_options clock id batchCounts in
      let count := (match got with Some n => n | None => 0 end + 1)%Z in
      let counts2 := LRU.set batchCounts_options clock id count counts1 in
      if (MAX_FILES env <? count)%Z then (counts2, Some TooManyFiles)
      else (counts2, None)
    else (batchCounts, None).

(** What [handleUpload] makes of the request body. *)
Inductive Event :=
| Unusable
    (* the body does not parse, or the library rejects it *)
| GenerateToken (pathname : jsstring) (meta : Meta) (token_ok : bool)
    (* a token request: the callback runs; then the library signs *)
| UploadCompleted (ok : bool).
    (* a completion notice, verified by the library *)

Record Run := {
  date_now : Z;     (* Date.now() in rateLimit *)
  clock : Z;        (* the reading of the cache's clock *)
  event : Event
}.

Inductive Content :=
| NoContent
| Plain (text : jsstring)
| Signed
| Failed (message : option Refusal).   (* None: the generic message *)

Record Response := {
  statusCode : nat;
  allow_origin : option jsstring;
  content : Content
}.

Record State := { rateCache : RateCache; batchCounts : BatchCounts }.

Definition setCors (origin : option jsstring) : option jsstring :=
  match allowedOrigins env with
  | [] => Some (or_else origin (lit "*"))
  | _ =>
      match origin with
      | Some (c :: o) =>
          if includes (allowedOrigins env) (c :: o) then Some (c :: o)
          else None
      | _ => None
      end
  end.

(** [allowedOrigins.length > 0 && (!origin || !allowedOrigins.includes(origin))] *)
Definition origin_rejected (origin : option jsstring) : bool :=
  match allowedOrigins env with
  | [] => false
  | _ => Estimate.origin_rejected env origin
  end.

(** The [try] block. *)
Definition sign (run : Run) (batchCounts : BatchCounts)
    : BatchCounts * (nat * Content) :=
  match event run with
  | Unusable => (batchCounts, (400%nat, Failed None))
  | GenerateToken _ meta token_ok =>
      match onBeforeGenerateToken (clock run) meta batchCounts with
      | (counts, Some r) => (counts, (400%nat, Failed (Some r)))
      | (counts, None) =>
          if token_ok then (counts, (200%nat, Signed))
          else (counts, (400%nat, Failed None))
      end
  | UploadCompleted ok =>
      if ok then (batchCounts, (200%nat, Signed))
      else (batchCounts, (400%nat, Failed None))
  end.

Definition handler (run : Run) (req : Request) (st : State)
    : State * Response :=
  let cors := setCors (origin req) in
  if str_eqb (method req) (lit "OPTIONS") then
    (st, Build_Response 204 cors NoContent)
  else if negb (str_eqb (method req) (lit "POST")) then
    (st, Build_Response 405 cors (Plain (lit "Method Not Allowed")))
  else if origin_rejected (origin req) then
    (st, Build_Response 403 cors (Plain (lit "Forbidden")))
  else
    let ip := getIP req in
    let (admitted, rateCache') := rateLimit (date_now run) ip (rateCache st) in
    if negb admitted then
      (Build_State rateCache' (batchCounts st),
       Build_Response 429 cors (Plain try_again_line))
    else
      let '(counts, (status, c)) := sign run (batchCounts st) in
      (Build_State rateCache' counts, Build_Response status cors c).

End Handler.

End Sign.

(* ================================================================== *)
(** * What "the first json-labelled fence" means *)

(** A fence opener (three backticks and the label, in any ASCII case) sits
    at offset [k] of [text]. *)
Definition opener_at (text : jsstring) (k : nat) : Prop :=
  List.map canonicalize (firstn 7 (skipn k text)) = List.map canonicalize fence_open.

(** Three backticks sit at offset [k] of [text]. *)
Definition closer_at (text : jsstring) (k : nat) : Prop :=
  firstn 3 (skipn k text) = fence_close.

(** [interior] lies between offset [0] of [rest] and the first closing
    marker of [rest]. *)
Definition closed_by_first_marker (rest interior : jsstring) : Prop :=
  interior = firstn (List.length interior) rest
  /\ closer_at rest (List.length interior)
  /\ forall j, (j < List.length interior)%nat -> ~ closer_at rest j.

(** [interior] is the inside of the first json-labelled fence of [text]: it
    follows the leftmost opener and runs up to the first closing marker
    after that opener. *)
Definition first_json_fence (text interior : jsstring) : Prop :=
  exists k,
    opener_at text k
    /\ (forall j, (j < k)%nat -> ~ opener_at text j)
    /\ closed_by_first_marker (skipn (k + 7) text) interior.

(** [line] contains [word] as a substring, up to ASCII case. *)
Definition contains_ci (word line : jsstring) : Prop :=
  exists pre mid post,
    line = pre ++ mid ++ post
    /\ List.map canonicalize mid = List.map canonicalize word.

(** The variable is unset, or holds nothing but white space. *)
Definition unset_or_blank (v : option jsstring) : Prop :=
  match v with
  | None => True
  | Some s => forallb is_js_space s = true
  end.

(** A run of calls of [rateLimit] for one client, at the given instants. *)
Fixpoint rateLimit_calls (ip : jsstring) (instants : list Z) (cache : RateCache)
    : list bool * RateCache :=
  match instants with
  | [] => ([], cache)
  | now :: rest =>
      let (ok, cache1) := rateLimit now ip cache in
      let (oks, cache2) := rateLimit_calls ip rest cache1 in
      (ok :: oks, cache2)
  end.

(** A run of token requests, all read at the same clock. *)
Fixpoint token_requests (env : Env) (clock : Z) (metas : list Sign.Meta)
    (counts : Sign.BatchCounts) : Sign.BatchCounts * list (option Sign.Refusal) :=
  match metas with
  | [] => (counts, [])
  | meta :: rest =>
      let (counts1, r) := Sign.onBeforeGenerateToken env clock meta counts in
      let (counts2, rs) := token_requests env clock rest counts1 in
      (counts2, r :: rs)
  end.

(** The count a [get] finds for [id] at [clock]; none, or a stale one,
    counts as zero. *)
Definition live_count (clock : Z) (id : jsstring) (counts : Sign.BatchCounts) : Z :=
  match fst (LRU.get Sign.batchCounts_options clock id counts) with
  | Some n => n
  | None => 0%Z
  end.

(** Every stored count is within the per-batch file limit. *)
Definition counts_within_limit (env : Env) (counts : Sign.BatchCounts) : Prop :=
  forall id n, Sign.stored_count id counts = Some n -> (n <= MAX_FILES env)%Z.

(** The environment with nothing set. *)
Definition default_env : Env := Build_Env None None None None None.

(* ------------------------------------------------------------------ *)
(** ** Sample inputs *)

(** The text of the repository's test of the repair. *)
Definition trailing_commas_text : jsstring := Eval cbv in
  lit "```json" ++ [10] ++ qlit "{'a':1, 'arr':[1,2,],}" ++ [10] ++ lit "```".

Definition one : json := JNumber (Decimal false 1 0).
Definition two : json := JNumber (Decimal false 2 0).

(** A text with prose, a brace span before the fence and a second fence
    after it. *)
Definition prose_text : jsstring := Eval cbv in
  qlit "Sure {'z':0}. Here is data:" ++ [10] ++ lit "```JSON" ++ [10]
  ++ qlit "{'a':1}" ++ [10] ++ qlit "``` and then ```json {'b':2}``` }".

(** A text whose fence holds no JSON while the braces after it do. *)
Definition broken_fence_text : jsstring := Eval cbv in
  qlit "```json not json ``` but {'b':2}".

Definition sample_env : Env :=
  Build_Env (Some (lit "https://example.com, https://www.example.com"))
    None None None None.

(** A stand-in for the URL parser: an absolute http(s) URL. *)
Definition sample_is_url (s : jsstring) : bool := starts_with (lit "http") s.

Definition sample_request : Request := {|
  method := lit "POST";
  origin := Some (lit "https://example.com");
  x_forwarded_for := Some (lit "203.0.113.7, 10.0.0.1");
  remoteAddress := Some (lit "10.0.0.1");
  body := qlit "{'zip':'06226','description':'old couch','image_urls':[]}"
|}.

Definition with_origin (o : option jsstring) (req : Request) : Request :=
  {| method := method req; origin := o;
     x_forwarded_for := x_forwarded_for req;
     remoteAddress := remoteAddress req; body := body req |}.

Definition with_body (b : jsstring) (req : Request) : Request :=
  {| method := method req; origin := origin req;
     x_forwarded_for := x_forwarded_for req;
     remoteAddress := remoteAddress req; body := b |}.

(** The model declines, in prose and in JSON. *)
Definition declined_text : jsstring := Eval cbv in
  lit "We are outside of the area we serve." ++ [10] ++ lit "```json" ++ [10]
  ++ qlit "{'serviceable': false}" ++ [10] ++ lit "```".

Definition run_at (now : Z) (stored : bool) : Run :=
  {| date_now := now; model_output := Some (Some declined_text);
     put_ok := stored |}.

(** The rate cache after five admitted requests of the sample client, one
    second apart. *)
Definition five_recorded : RateCache :=
  snd (rateLimit_calls (lit "203.0.113.7") [0; 1000; 2000; 3000; 4000]%Z []).

(** A token request for a small file of batch [b]. *)
Definition small_file : Sign.Meta :=
  Sign.Build_Meta (Some (inject_Z 1000)) (Some (inject_Z 13000))
    (Some (lit "image/jpeg")) (Some (lit "b")).

(* ================================================================== *)
(** * The admin endpoints: the bearer gate, the page size, the stored keys *)

Module Admin.

(** [auth.startsWith("Bearer ") ? auth.slice(7) : ""] on the
    [authorization] header, an absent header read as the empty string
    ([api/admin/list.ts], and the same lines of the record fetcher). *)
Definition bearer_token (authorization : option jsstring) : jsstring :=
  let auth := or_else authorization [] in
  if starts_with (lit "Bearer ") auth then skipn 7 auth else [].

(** The negation of the guard [!ADMIN_TOKEN || token !== ADMIN_TOKEN]:
    whether the handler goes on past [unauthorized]. [ADMIN_TOKEN] is
    the environment variable, or the empty string. *)
Definition authorized (ADMIN_TOKEN_var authorization : option jsstring) : bool :=
  let ADMIN_TOKEN := or_else ADMIN_TOKEN_var [] in
  nonempty ADMIN_TOKEN && str_eqb (bearer_token authorization) ADMIN_TOKEN.

(** [authOk] of the listing endpoint ([/api/admin-list]): the token of the
    query string, else the bearer token of the header, compared with the
    environment variable; an unset variable equals no string. *)
Definition authOk (ADMIN_TOKEN_var qToken authorization : option jsstring) : bool :=
  let h := or_else authorization [] in
  let bearer := if starts_with (lit "Bearer ") h then Some (skipn 7 h) else None in
  let tok :=
    match qToken with
    | Some (c :: q) => Some (c :: q)
    | _ => bearer
    end in
  match tok, ADMIN_TOKEN_var with
  | Some (c :: t), Some admin => str_eqb (c :: t) admin
  | _, _ => false
  end.

(** [parseInt(s, 10)]: leading white space, an optional sign, then the
    longest run of decimal digits; [None] is [NaN]. *)
Definition parseInt10 (s : jsstring) : option Z :=
  let s1 := drop_space s in
  let (neg, s2) :=
    match s1 with
    | 45 :: r => (true, r)
    | 43 :: r => (false, r)
    | _ => (false, s1)
    end in
  let '(v, n, _) := JSONText.digits 0 0%nat s2 in
  if (n =? 0)%nat then None
  else Some (if neg then (- Z.of_N v)%Z else Z.of_N v).

(** [lim]: [Math.max(1, Math.min(200, parseInt(String(limit), 10) || 50))],
    where [limit] is the query parameter and defaults to ["50"]. *)
Definition lim (limit : option jsstring) : Z :=
  let s := match limit with Some l => l | None => lit "50" end in
  let n :=
    match parseInt10 s with
    | Some v => if (v =? 0)%Z then 50%Z else v
    | None => 50%Z
    end in
  Z.max 1 (Z.min 200 n).

Definition all_digits (s : jsstring) : bool := forallb JSONText.is_digit s.

(** What [.] does not match: the line terminators. *)
Definition is_line_terminator (c : N) : bool :=
  (c =? 10) || (c =? 13) || (c =? 8232) || (c =? 8233).

(** [\d{4}-\d{2}-\d{2}] on a string of exactly ten units. *)
Definition date_shaped (d : jsstring) : bool :=
  match d with
  | [y1; y2; y3; y4; 45; m1; m2; 45; d1; d2] =>
      all_digits [y1; y2; y3; y4; m1; m2; d1; d2]
  | _ => false
  end.

(** [s] minus the suffix [suf], when it ends with it. *)
Definition strip_suffix (suf s : jsstring) : option jsstring :=
  let n := (List.length s - List.length suf)%nat in
  if str_eqb (skipn n s) suf then Some (firstn n s) else None.

(** [parseKey]: the pattern anchored at both ends, made of the prefix
    [results/], a date, a slash, five digits, a hyphen, one unit or more with
    no line terminator, and [.json]. The result is the three groups; [None]
    is the record of three nulls. *)
Definition parseKey (key : jsstring) : option (jsstring * jsstring * jsstring) :=
  if starts_with (lit "results/") key then
    let r1 := skipn 8 key in
    let date := firstn 10 r1 in
    match skipn 10 r1 with
    | 47 :: r2 =>
        let zip := firstn 5 r2 in
        match skipn 5 r2 with
        | 45 :: r3 =>
            match strip_suffix (lit ".json") r3 with
            | Some ts =>
                if date_shaped date
                   && ((List.length zip =? 5)%nat && all_digits zip)
                   && (nonempty ts && negb (existsb is_line_terminator ts))
                then Some (date, zip, ts)
                else None
            | None => None
            end
        | _ => None
        end
    | _ => None
    end
  else None.

(** The key under which the zip-checking estimate handler stores a result:
    [`results/${dateStamp}/${safeZip}-${ts}.json`]. *)
Definition resultKey (dateStamp safeZip ts : jsstring) : jsstring :=
  lit "results/" ++ dateStamp ++ lit "/" ++ safeZip ++ lit "-" ++ ts ++ lit ".json".

End Admin.

(* ------------------------------------------------------------------ *)
(** ** More notions and sample inputs *)

(** [parts.join(",")] *)
Fixpoint join_commas (parts : list jsstring) : jsstring :=
  match parts with
  | [] => []
  | [p] => p
  | p :: rest => p ++ 44 :: join_commas rest
  end.

(** No json-labelled opener anywhere in [text]. *)
Definition no_opener (text : jsstring) : Prop :=
  forall k, ~ opener_at text k.

(** Every client on record has at most [RATE_MAX] instants. *)
Definition records_bounded (cache : RateCache) : Prop :=
  forall ip, (List.length (recorded ip cache) <= RATE_MAX)%nat.

(** The outcome of the [i]-th request of a batch whose live count is
    [live]. *)
Definition nth_outcome (env : Env) (live : Z) (i : nat) : option Sign.Refusal :=
  if (MAX_FILES env <? live + Z.of_nat i)%Z then Some Sign.TooManyFiles else None.

(** A token request passes the two size checks. *)
Definition sizes_accepted (env : Env) (meta : Sign.Meta) : Prop :=
  Sign.Qgtb (Sign.megabytes (Sign.size meta)) (inject_Z (MAX_FILE_MB env)) = false
  /\ Sign.Qgtb (Sign.megabytes (Sign.batchTotal meta)) (inject_Z (MAX_TOTAL_MB env)) = false.

(** A token request that names no batch. *)
Definition unbatched_file : Sign.Meta :=
  Sign.Build_Meta (Some (inject_Z 1000)) (Some (inject_Z 1000))
    (Some (lit "image/png")) None.

(** The text of the repository's test of the plain-text path. *)
Definition plain_text : jsstring := Eval cbv in qlit "prefix {'b':2} suffix".

Definition sample_client : jsstring := Eval cbv in lit "203.0.113.7".
Definition other_client : jsstring := Eval cbv in lit "198.51.100.2".

Definition with_method (m : jsstring) (req : Request) : Request :=
  {| method := m; origin := origin req;
     x_forwarded_for := x_forwarded_for req;
     remoteAddress := remoteAddress req; body := body req |}.

(** The two entries of the sample allow-list, as written in the variable. *)
Definition sample_entries : list jsstring :=
  [lit "https://example.com"; lit " https://www.example.com"].

(** The sample body, decoded and validated. *)
Definition sample_body : json :=
  JObject [(lit "zip", JString (lit "06226"));
           (lit "description", JString (lit "old couch"));
           (lit "image_urls", JArray [])].

Definition sample_data : RequestBody :=
  {| zip := lit "06226"; description := lit "old couch"; image_urls := [] |}.

(** A token request of the sample batch reaching the upload-signing
    handler. *)
Definition token_run : Sign.Run :=
  Sign.Build_Run 0 0 (Sign.GenerateToken (lit "a.jpg") small_file true).

Definition fresh_state : Sign.State := Sign.Build_State [] [].

(* ------------------------------------------------------------------ *)
(** ** Notions stated without the helpers of the program *)

(** [j] is an object whose field [k] holds the boolean [b]. *)
Definition has_boolean_field (k : jsstring) (j : json) (b : bool) : Prop :=
  exists pre post,
    j = JObject (pre ++ (k, JBool b) :: post)
    /\ forall v, ~ In (k, v) pre.

(** Two code units are equal, or the same ASCII letter in its two cases. *)
Definition same_letter (a b : N) : Prop :=
  a = b \/ (65 <= a <= 90 /\ b = a + 32) \/ (65 <= b <= 90 /\ a = b + 32).

(** [line] contains [word], letter for letter in either case. *)
Definition contains_word (word line : jsstring) : Prop :=
  exists pre mid post,
    line = pre ++ mid ++ post /\ Forall2 same_letter mid word.

(** [text] has no json-labelled fence: no opener that is closed. *)
Definition no_json_fence (text : jsstring) : Prop :=
  forall interior, ~ first_json_fence text interior.

(** A run of token requests, each read at its own clock. *)
Fixpoint token_requests_at (env : Env) (requests : list (Z * Sign.Meta))
    (counts : Sign.BatchCounts) : Sign.BatchCounts * list (option Sign.Refusal) :=
  match requests with
  | [] => (counts, [])
  | (clock, meta) :: rest =>
      let (counts1, r) := Sign.onBeforeGenerateToken env clock meta counts in
      let (counts2, rs) := token_requests_at env rest counts1 in
      (counts2, r :: rs)
  end.

(** No count expires between two requests in a row: the next clock reading
    is at most one time-to-live after the one before, unless that one read
    zero. *)
Fixpoint no_expiry_between (clocks : list Z) : Prop :=
  match clocks with
  | c :: ((c' :: _) as rest) =>
      (c = 0 \/ c' - c <= RATE_WINDOW_MS)%Z /\ no_expiry_between rest
  | _ => True
  end.

(** The sample run with another answer of the model. *)
Definition run_with (text : jsstring) (stored : bool) : Run :=
  {| date_now := 0; model_output := Some (Some text); put_ok := stored |}.

(** The line is clean, the JSON declines. *)
Definition field_false_text : jsstring := Eval cbv in
  lit "Sorry, that address is not in our area." ++ [10] ++ lit "```json" ++ [10]
  ++ qlit "{'serviceable': false}" ++ [10] ++ lit "```".

(** The line says outside, in capitals; the JSON accepts. *)
Definition field_true_text : jsstring := Eval cbv in
  lit "You are OUTSIDE our usual zone, but we will come." ++ [10]
  ++ lit "```json" ++ [10] ++ qlit "{'serviceable': true}" ++ [10] ++ lit "```".

(** No JSON; the line says outside in mixed case. *)
Definition mixed_case_text : jsstring := Eval cbv in
  lit "Sorry, that is OutSide our area.".

(** No JSON; a line with a price. *)
Definition priced_text : jsstring := Eval cbv in
  lit "Estimated range: $200 to $300".

(** An opener that is never closed, before an object. *)
Definition unclosed_fence_text : jsstring := Eval cbv in
  lit "```json " ++ qlit "{'a':1}".

(** An opener that is never closed, and no brace. *)
Definition unclosed_bare_text : jsstring := Eval cbv in
  lit "```json nothing to read".

(** Fourteen token requests of batch [b], one second apart from clock
    reading 1000, the [i]-th for a file of [i] thousand bytes. *)
Definition varied_batch : list (Z * Sign.Meta) :=
  List.map
    (fun i =>
       (1000 * Z.of_nat i,
        Sign.Build_Meta (Some (inject_Z (1000 * Z.of_nat i)))
          (Some (inject_Z 105000)) (Some (lit "image/jpeg")) (Some (lit "b")))%Z)
    (seq 1 14).

(* ================================================================== *)
(** * Properties of the extractor *)

Section FenceFacts.

Local Open Scope nat_scope.

Lemma starts_with_spec (p s : jsstring) :
  starts_with p s = true <-> firstn (List.length p) s = p.
Proof.
  revert s; induction p as [|x p IH]; intros s; simpl.
  - split; auto.
  - destruct s as [|y s]; simpl.
    + split; discriminate.
    + rewrite andb_true_iff, N.eqb_eq, IH. split.
      * intros [-> ->]; reflexivity.
      * intros H; injection H as -> H; auto.
Qed.

Lemma starts_with_ci_spec (p s : jsstring) :
  starts_with_ci p s = true <->
  List.map canonicalize (firstn (List.length p) s) = List.map canonicalize p.
Proof.
  revert s; induction p as [|x p IH]; intros s; simpl.
  - split; auto.
  - destruct s as [|y s]; simpl.
    + split; discriminate.
    + rewrite andb_true_iff, N.eqb_eq, IH. split.
      * intros [-> ->]; reflexivity.
      * intros H; injection H as -> H; auto.
Qed.

Lemma opener_at_0 (text : jsstring) :
  starts_with_ci fence_open text = true <-> opener_at text 0.
Proof. apply starts_with_ci_spec. Qed.

Lemma closer_at_0 (s : jsstring) :
  starts_with fence_close s = true <-> closer_at s 0.
Proof. apply starts_with_spec. Qed.

Lemma opener_at_S (c : N) (text : jsstring) (k : nat) :
  opener_at (c :: text) (S k) <-> opener_at text k.
Proof. reflexivity. Qed.

Lemma closer_at_S (c : N) (s : jsstring) (k : nat) :
  closer_at (c :: s) (S k) <-> closer_at s k.
Proof. reflexivity. Qed.

Lemma lazy_to_close_spec (s interior : jsstring) :
  lazy_to_close s = Some interior <-> closed_by_first_marker s interior.
Proof.
  unfold closed_by_first_marker.
  revert interior; induction s as [|c s IH]; intros interior.
  - simpl. split.
    + discriminate.
    + intros (_ & H & _). unfold closer_at in H.
      rewrite skipn_nil in H. discriminate.
  - cbn [lazy_to_close].
    destruct (starts_with fence_close (c :: s)) eqn:E.
    + apply closer_at_0 in E. split.
      * intros [= <-]. simpl. repeat split; auto. intros j Hj; lia.
      * intros (_ & _ & Hmin). destruct interior as [|d i]; auto.
        exfalso. apply (Hmin 0); simpl; auto; lia.
    + assert (N0 : ~ closer_at (c :: s) 0).
      { intros H; apply closer_at_0 in H; congruence. }
      destruct (lazy_to_close s) as [i|] eqn:L; simpl.
      * destruct (proj1 (IH i) eq_refl) as (Hi & Hc & Hmin). split.
        -- intros [= <-]. simpl. repeat split.
           ++ f_equal; exact Hi.
           ++ exact Hc.
           ++ intros [|j] Hj; auto. apply Hmin; lia.
        -- intros (Hi' & Hc' & Hmin'). destruct interior as [|d i'].
           ++ contradiction.
           ++ simpl in Hi'. injection Hi' as <- Hi'.
              assert (Some i = Some i') as [= ->].
              { apply IH. repeat split; auto.
                intros j Hj. apply (Hmin' (S j)). simpl; lia. }
              reflexivity.
      * split; [discriminate|].
        intros (Hi' & Hc' & Hmin'). destruct interior as [|d i'].
        -- contradiction.
        -- simpl in Hi'. injection Hi' as <- Hi'.
           assert (None = Some i') by
             (apply IH; repeat split; auto;
              intros j Hj; apply (Hmin' (S j)); simpl; lia).
           discriminate.
Qed.

Lemma lazy_to_close_none_tail (c : N) (s : jsstring) :
  lazy_to_close (c :: s) = None -> lazy_to_close s = None.
Proof.
  cbn [lazy_to_close]. destruct (starts_with fence_close (c :: s)); [discriminate|].
  destruct (lazy_to_close s); [discriminate|reflexivity].
Qed.

Lemma lazy_to_close_none_skipn (n : nat) (s : jsstring) :
  lazy_to_close s = None -> lazy_to_close (skipn n s) = None.
Proof.
  revert s; induction n as [|n IH]; intros s H; [exact H|].
  destruct s as [|c s]; [exact H|].
  simpl. apply IH. eapply lazy_to_close_none_tail; eauto.
Qed.

(** The regular expression finds the leftmost opener and, from there, the
    first closing marker. *)
Lemma fence_exec_chars (text interior : jsstring) :
  fence_exec text = Some interior <->
  exists k, opener_at text k
            /\ (forall j, j < k -> ~ opener_at text j)
            /\ lazy_to_close (skipn (k + 7) text) = Some interior.
Proof.
  induction text as [|c text IH].
  - simpl. split; [discriminate|].
    intros (k & H & _). unfold opener_at in H. rewrite skipn_nil in H. discriminate.
  - cbn [fence_exec]. unfold fence_at.
    destruct (starts_with_ci fence_open (c :: text)) eqn:E.
    + apply opener_at_0 in E.
      change (List.length fence_open) with 7.
      destruct (lazy_to_close (skipn 7 (c :: text))) as [i|] eqn:L.
      * split.
        -- intros [= <-]. exists 0. repeat split; auto. intros j Hj; lia.
        -- intros (k & Hk & Hmin & Hl). destruct k as [|k].
           ++ simpl in Hl. simpl in L. congruence.
           ++ exfalso. apply (Hmin 0); auto; lia.
      * assert (Hnone : forall k, lazy_to_close (skipn (k + 7) (c :: text)) = None).
        { intros k. rewrite <- skipn_skipn.
          apply lazy_to_close_none_skipn, L. }
        split.
        -- intros H. apply IH in H. destruct H as (k & _ & _ & Hl).
           specialize (Hnone (S k)). simpl in Hnone. congruence.
        -- intros (k & _ & _ & Hl). rewrite Hnone in Hl. discriminate.
    + assert (N0 : ~ opener_at (c :: text) 0).
      { intros H; apply opener_at_0 in H; congruence. }
      rewrite IH. split.
      * intros (k & Hk & Hmin & Hl). exists (S k). repeat split; auto.
        intros [|j] Hj; auto. rewrite opener_at_S. apply Hmin; lia.
      * intros (k & Hk & Hmin & Hl). destruct k as [|k]; [contradiction|].
        exists k. repeat split; auto.
        intros j Hj. apply (Hmin (S j)). lia.
Qed.

Lemma fence_exec_spec (text interior : jsstring) :
  fence_exec text = Some interior <-> first_json_fence text interior.
Proof.
  rewrite fence_exec_chars. unfold first_json_fence.
  split; intros (k & Hk & Hmin & H); exists k; repeat split; auto;
    apply lazy_to_close_spec; exact H.
Qed.

End FenceFacts.

(* ================================================================== *)
(** * Properties of the cache and of the rate limiter *)

Section CacheFacts.

Local Open Scope nat_scope.

Lemma str_eqb_eq (a b : jsstring) : str_eqb a b = true <-> a = b.
Proof.
  revert b; induction a as [|x a IH]; intros [|y b]; simpl;
    try (split; (discriminate || reflexivity)).
  rewrite andb_true_iff, N.eqb_eq, IH. split.
  - intros [-> ->]; reflexivity.
  - intros [= -> ->]; auto.
Qed.

Lemma str_eqb_refl (a : jsstring) : str_eqb a a = true.
Proof. apply str_eqb_eq; reflexivity. Qed.

Context {V : Type}.

Lemma find_key (k : jsstring) (c : LRU.t V) (e : LRU.entry V) :
  LRU.find k c = Some e -> LRU.key e = k.
Proof.
  induction c as [|e' c IH]; simpl; [discriminate|].
  destruct (str_eqb k (LRU.key e')) eqn:E; auto.
  intros [= <-]. symmetry; apply str_eqb_eq, E.
Qed.

Lemma find_set_same (o : LRU.options) (now : Z) (k : jsstring) (v : V) (c : LRU.t V) :
  1 <= LRU.max o ->
  LRU.find k (LRU.set o now k v c) = Some (LRU.Entry k v now).
Proof.
  unfold LRU.set. destruct (LRU.max o) as [|m]; [lia|]. intros _.
  simpl. rewrite str_eqb_refl. reflexivity.
Qed.

Lemma find_get_fresh (o : LRU.options) (now : Z) (k : jsstring) (c : LRU.t V) :
  LRU.ttl o = None ->
  LRU.find k (snd (LRU.get o now k c)) = LRU.find k c
  /\ fst (LRU.get o now k c) = option_map LRU.value (LRU.find k c).
Proof.
  intros Httl. unfold LRU.get, LRU.stale. rewrite Httl.
  destruct (LRU.find k c) as [e|] eqn:F; simpl; auto.
  rewrite (find_key _ _ _ F), str_eqb_refl. auto.
Qed.

End CacheFacts.

Section RateFacts.

Local Open Scope Z_scope.

Lemma rateLimit_unfold (now : Z) (ip : jsstring) (cache : RateCache) :
  let arr := in_window now (recorded ip cache) in
  let cache1 := snd (LRU.get rateCache_options now ip cache) in
  rateLimit now ip cache =
    if (RATE_MAX <=? List.length arr)%nat then (false, cache1)
    else (true, LRU.set rateCache_options now ip (arr ++ [now]) cache1).
Proof.
  unfold rateLimit, recorded.
  destruct (find_get_fresh rateCache_options now ip cache eq_refl) as [_ H].
  destruct (LRU.get rateCache_options now ip cache) as [got c1]. simpl in *.
  subst got. destruct (LRU.find ip cache); reflexivity.
Qed.

(** A rejected call leaves the recorded instants as they were; an admitted
    call records the instants still in the window, then its own. *)
Lemma rateLimit_recorded (now : Z) (ip : jsstring) (cache : RateCache) :
  recorded ip (snd (rateLimit now ip cache)) =
    if fst (rateLimit now ip cache)
    then in_window now (recorded ip cache) ++ [now]
    else recorded ip cache.
Proof.
  rewrite rateLimit_unfold.
  destruct (RATE_MAX <=? _)%nat; simpl.
  - unfold recorded at 1.
    rewrite (proj1 (find_get_fresh rateCache_options now ip cache eq_refl)).
    reflexivity.
  - unfold recorded at 1. rewrite find_set_same; [reflexivity|simpl; lia].
Qed.

Lemma rateLimit_rejects_iff (now : Z) (ip : jsstring) (cache : RateCache) :
  fst (rateLimit now ip cache) = false <->
  (RATE_MAX <= List.length (in_window now (recorded ip cache)))%nat.
Proof.
  rewrite rateLimit_unfold.
  destruct (RATE_MAX <=? _)%nat eqn:E; simpl.
  - apply Nat.leb_le in E. tauto.
  - apply Nat.leb_gt in E. split; [discriminate | lia].
Qed.

Lemma in_window_all_old (now : Z) (arr : list Z) :
  (forall t, In t arr -> RATE_WINDOW_MS <= now - t) -> in_window now arr = [].
Proof.
  induction arr as [|t arr IH]; intros H; simpl; auto.
  destruct (Z.ltb_spec (now - t) RATE_WINDOW_MS) as [L|L].
  - specialize (H t (or_introl eq_refl)). lia.
  - apply IH. intros t' Ht'. apply H. right; exact Ht'.
Qed.

Lemma in_window_all_recent (now : Z) (arr : list Z) :
  (forall t, In t arr -> now - t < RATE_WINDOW_MS) -> in_window now arr = arr.
Proof.
  induction arr as [|t arr IH]; intros H; simpl; auto.
  destruct (Z.ltb_spec (now - t) RATE_WINDOW_MS) as [L|L].
  - f_equal. apply IH. intros t' Ht'. apply H. right; exact Ht'.
  - specialize (H t (or_introl eq_refl)). lia.
Qed.

(** One call for a client whose recorded instants are all recent and fewer
    than the maximum: admitted, and the instant joins the record. *)
Lemma rateLimit_admits_recent (now : Z) (ip : jsstring) (cache : RateCache) :
  (forall t, In t (recorded ip cache) -> now - t < RATE_WINDOW_MS) ->
  (List.length (recorded ip cache) < RATE_MAX)%nat ->
  fst (rateLimit now ip cache) = true
  /\ recorded ip (snd (rateLimit now ip cache)) = recorded ip cache ++ [now].
Proof.
  intros Hrec Hlen.
  assert (A : fst (rateLimit now ip cache) = true).
  { destruct (fst (rateLimit now ip cache)) eqn:E; auto.
    apply rateLimit_rejects_iff in E.
    rewrite in_window_all_recent in E by exact Hrec. lia. }
  split; auto.
  rewrite rateLimit_recorded, A, in_window_all_recent by exact Hrec.
  reflexivity.
Qed.

(** X8. Six calls in a row from one client with nothing on record, the sixth
    less than a window after the first: five admissions, then a rejection. *)
Lemma sixth_in_window_rejected (ip : jsstring) (cache : RateCache)
    (t1 t2 t3 t4 t5 t6 : Z) :
  recorded ip cache = [] ->
  t1 <= t2 <= t3 /\ t3 <= t4 <= t5 /\ t5 <= t6 ->
  t6 - t1 < RATE_WINDOW_MS ->
  fst (rateLimit_calls ip [t1; t2; t3; t4; t5; t6] cache)
  = [true; true; true; true; true; false].
Proof.
  intros H0 Hord Hwin. unfold RATE_WINDOW_MS in Hwin.
  cbn [rateLimit_calls].
  destruct (rateLimit_admits_recent t1 ip cache) as [A1 R1];
    [rewrite H0; simpl; tauto | rewrite H0; simpl; unfold RATE_MAX; lia |].
  rewrite H0 in R1. simpl in R1.
  destruct (rateLimit t1 ip cache) as [ok1 c1]. simpl in A1, R1. subst ok1.
  destruct (rateLimit_admits_recent t2 ip c1) as [A2 R2];
    [rewrite R1; unfold RATE_WINDOW_MS; simpl; intros t [<-|[]]; lia
    | rewrite R1; simpl; unfold RATE_MAX; lia |].
  rewrite R1 in R2. simpl in R2.
  destruct (rateLimit t2 ip c1) as [ok2 c2]. simpl in A2, R2. subst ok2.
  destruct (rateLimit_admits_recent t3 ip c2) as [A3 R3];
    [rewrite R2; unfold RATE_WINDOW_MS; simpl; intros t [<-|[<-|[]]]; lia
    | rewrite R2; simpl; unfold RATE_MAX; lia |].
  rewrite R2 in R3. simpl in R3.
  destruct (rateLimit t3 ip c2) as [ok3 c3]. simpl in A3, R3. subst ok3.
  destruct (rateLimit_admits_recent t4 ip c3) as [A4 R4];
    [rewrite R3; unfold RATE_WINDOW_MS; simpl; intros t [<-|[<-|[<-|[]]]]; lia
    | rewrite R3; simpl; unfold RATE_MAX; lia |].
  rewrite R3 in R4. simpl in R4.
  destruct (rateLimit t4 ip c3) as [ok4 c4]. simpl in A4, R4. subst ok4.
  destruct (rateLimit_admits_recent t5 ip c4) as [A5 R5];
    [rewrite R4; unfold RATE_WINDOW_MS; simpl;
     intros t [<-|[<-|[<-|[<-|[]]]]]; lia
    | rewrite R4; simpl; unfold RATE_MAX; lia |].
  rewrite R4 in R5. simpl in R5.
  destruct (rateLimit t5 ip c4) as [ok5 c5]. simpl in A5, R5. subst ok5.
  assert (A6 : fst (rateLimit t6 ip c5) = false).
  { apply rateLimit_rejects_iff. rewrite R5.
    rewrite in_window_all_recent; [simpl; unfold RATE_MAX; lia|].
    unfold RATE_WINDOW_MS; simpl.
    intros t [<-|[<-|[<-|[<-|[<-|[]]]]]]; lia. }
  destruct (rateLimit t6 ip c5) as [ok6 c6]. simpl in A6. subst ok6.
  reflexivity.
Qed.

Lemma in_window_length (now : Z) (arr : list Z) :
  (List.length (in_window now arr) <= List.length arr)%nat.
Proof.
  induction arr as [|t arr IH]; simpl; auto.
  destruct (now - t <? RATE_WINDOW_MS); simpl; lia.
Qed.

(** X9. Five calls in a row from one client with nothing on record, all within
    one window, and a sixth once the window has fully elapsed from the
    first: six admissions. *)
Lemma sixth_after_window_admitted (ip : jsstring) (cache : RateCache)
    (t1 t2 t3 t4 t5 t6 : Z) :
  recorded ip cache = [] ->
  t1 <= t2 <= t3 /\ t3 <= t4 <= t5 /\ t5 <= t6 ->
  t5 - t1 < RATE_WINDOW_MS ->
  RATE_WINDOW_MS <= t6 - t1 ->
  fst (rateLimit_calls ip [t1; t2; t3; t4; t5; t6] cache)
  = [true; true; true; true; true; true].
Proof.
  intros H0 Hord Hwin Hold. unfold RATE_WINDOW_MS in Hwin.
  cbn [rateLimit_calls].
  destruct (rateLimit_admits_recent t1 ip cache) as [A1 R1];
    [rewrite H0; simpl; tauto | rewrite H0; simpl; unfold RATE_MAX; lia |].
  rewrite H0 in R1. simpl in R1.
  destruct (rateLimit t1 ip cache) as [ok1 c1]. simpl in A1, R1. subst ok1.
  destruct (rateLimit_admits_recent t2 ip c1) as [A2 R2];
    [rewrite R1; unfold RATE_WINDOW_MS; simpl; intros t [<-|[]]; lia
    | rewrite R1; simpl; unfold RATE_MAX; lia |].
  rewrite R1 in R2. simpl in R2.
  destruct (rateLimit t2 ip c1) as [ok2 c2]. simpl in A2, R2. subst ok2.
  destruct (rateLimit_admits_recent t3 ip c2) as [A3 R3];
    [rewrite R2; unfold RATE_WINDOW_MS; simpl; intros t [<-|[<-|[]]]; lia
    | rewrite R2; simpl; unfold RATE_MAX; lia |].
  rewrite R2 in R3. simpl in R3.
  destruct (rateLimit t3 ip c2) as [ok3 c3]. simpl in A3, R3. subst ok3.
  destruct (rateLimit_admits_recent t4 ip c3) as [A4 R4];
    [rewrite R3; unfold RATE_WINDOW_MS; simpl; intros t [<-|[<-|[<-|[]]]]; lia
    | rewrite R3; simpl; unfold RATE_MAX; lia |].
  rewrite R3 in R4. simpl in R4.
  destruct (rateLimit t4 ip c3) as [ok4 c4]. simpl in A4, R4. subst ok4.
  destruct (rateLimit_admits_recent t5 ip c4) as [A5 R5];
    [rewrite R4; unfold RATE_WINDOW_MS; simpl;
     intros t [<-|[<-|[<-|[<-|[]]]]]; lia
    | rewrite R4; simpl; unfold RATE_MAX; lia |].
  rewrite R4 in R5. simpl in R5.
  destruct (rateLimit t5 ip c4) as [ok5 c5]. simpl in A5, R5. subst ok5.
  assert (A6 : fst (rateLimit t6 ip c5) = true).
  { destruct (fst (rateLimit t6 ip c5)) eqn:E; auto.
    apply rateLimit_rejects_iff in E. rewrite R5 in E.
    pose proof (in_window_length t6 [t2; t3; t4; t5]) as B.
    change (in_window t6 [t1; t2; t3; t4; t5])
      with (if t6 - t1 <? RATE_WINDOW_MS
            then t1 :: in_window t6 [t2; t3; t4; t5]
            else in_window t6 [t2; t3; t4; t5]) in E.
    destruct (Z.ltb_spec (t6 - t1) RATE_WINDOW_MS) as [L|_]; [lia|].
    unfold RATE_MAX in E. cbn [List.length] in B. lia. }
  destruct (rateLimit t6 ip c5) as [ok6 c6]. simpl in A6. subst ok6.
  reflexivity.
Qed.

End RateFacts.

(* ================================================================== *)
(** * The extractor on fenced texts *)

Section ExtractorClaims.

Variable parse : jsstring -> option json.

(** [JSON.parse] throws on the empty string. *)
Hypothesis parse_empty : parse [] = None.

(** C1. When the interior of the first json-labelled fence of a text parses
    as JSON to [v], the extractor returns exactly [v], whatever surrounds
    the fence. *)
Theorem fenced_value_returned (text interior : jsstring) (v : json) :
  first_json_fence text interior ->
  parse interior = Some v ->
  extractJsonLoose parse text = v.
Proof.
  intros Hf Hp. apply fence_exec_spec in Hf.
  unfold extractJsonLoose. rewrite Hf.
  destruct interior as [|c i]; [congruence|].
  unfold parse_loose. rewrite Hp. reflexivity.
Qed.

(** C2. A text with a json-labelled fence never reaches the brace-span
    fallback: the result is that of the two parse attempts on the interior
    of the first fence (strict, then repaired, then [null]), so two texts
    with the same first interior give the same result. *)
Theorem fence_decides_result (text interior : jsstring) :
  first_json_fence text interior ->
  extractJsonLoose parse text = parse_loose parse interior
  /\ forall text', first_json_fence text' interior ->
                   extractJsonLoose parse text' = extractJsonLoose parse text.
Proof.
  assert (A : forall t, first_json_fence t interior ->
                        extractJsonLoose parse t = parse_loose parse interior).
  { intros t Hf. apply fence_exec_spec in Hf.
    unfold extractJsonLoose. rewrite Hf.
    destruct interior as [|c i]; [|reflexivity].
    unfold parse_loose. cbn [repair List.length replace_comma_close].
    rewrite parse_empty. reflexivity. }
  intros Hf. split; [apply A, Hf|].
  intros t' Hf'. rewrite (A _ Hf), (A _ Hf'). reflexivity.
Qed.

End ExtractorClaims.

(** C3. On the candidate [{"a":1, "arr":[1,2,],}] the strict parse fails,
    the repair deletes the comma before the closing brace and the one before
    the closing bracket, and the retry gives the object with [a] at 1 and
    [arr] at the array of 1 and 2; so does the extractor on the fenced text
    of the repository's test, whose interior is that candidate between two
    line feeds. *)
Theorem trailing_commas_repaired :
  let candidate := qlit "{'a':1, 'arr':[1,2,],}" in
  let expected := JObject [(lit "a", one); (lit "arr", JArray [one; two])] in
  JSON_parse candidate = None
  /\ repair candidate = qlit "{'a':1, 'arr':[1,2]}"
  /\ JSON_parse (repair candidate) = Some expected
  /\ extractJsonLoose JSON_parse (fence_open ++ candidate ++ fence_close)
     = expected
  /\ fence_exec trailing_commas_text = Some ([10] ++ candidate ++ [10])
  /\ extractJsonLoose JSON_parse trailing_commas_text = expected.
Proof. vm_compute. repeat split. Qed.

Lemma fenced_value_returned_witness :
  let interior := [10] ++ qlit "{'a':1}" ++ [10] in
  first_json_fence prose_text interior
  /\ JSON_parse interior = Some (JObject [(lit "a", one)])
  /\ extractJsonLoose JSON_parse prose_text = JObject [(lit "a", one)].
Proof.
  assert (F : first_json_fence prose_text ([10] ++ qlit "{'a':1}" ++ [10]))
    by (apply fence_exec_spec; vm_compute; reflexivity).
  split; [exact F|]. split; [vm_compute; reflexivity|].
  apply (fenced_value_returned JSON_parse eq_refl prose_text _ _ F).
  vm_compute; reflexivity.
Defined.

Lemma fence_decides_result_witness :
  first_json_fence broken_fence_text (lit " not json ")
  /\ brace_span broken_fence_text = Some (qlit "{'b':2}")
  /\ extractJsonLoose JSON_parse broken_fence_text = JNull.
Proof.
  assert (F : first_json_fence broken_fence_text (lit " not json "))
    by (apply fence_exec_spec; vm_compute; reflexivity).
  split; [exact F|]. split; [vm_compute; reflexivity|].
  rewrite (proj1 (fence_decides_result JSON_parse eq_refl _ _ F)).
  vm_compute; reflexivity.
Defined.

(* ================================================================== *)
(** * Properties of the estimate handler *)

Section EstimateClaims.

Variable parse : jsstring -> option json.
Variable is_url : jsstring -> bool.
Variable env : Env.

Local Open Scope Z_scope.

Local Abbreviation handler := (Estimate.handler parse is_url env).

(** Past the method check and the origin check, the handler is the rate
    limiter followed by the guarded block. *)
Lemma handler_post (run : Run) (req : Request) (cache : RateCache) :
  method req = lit "POST" ->
  Estimate.origin_rejected env (origin req) = false ->
  handler run req cache =
    let cors := Estimate.setCors env (origin req) in
    let (admitted, cache') := rateLimit (date_now run) (getIP req) cache in
    if negb admitted
    then (cache', Build_Response 429 cors (CustomerLine try_again_line))
    else let (status, c) := Estimate.estimate parse is_url env run req in
         (cache', Build_Response status cors c).
Proof.
  intros Hm Ho. unfold Estimate.handler. rewrite Hm, Ho.
  change (str_eqb (lit "POST") (lit "OPTIONS")) with false.
  change (str_eqb (lit "POST") (lit "POST")) with true.
  reflexivity.
Qed.

Lemma estimate_status (run : Run) (req : Request) :
  fst (Estimate.estimate parse is_url env run req) = 200%nat
  \/ fst (Estimate.estimate parse is_url env run req) = 400%nat.
Proof.
  unfold Estimate.estimate, Estimate.answer, Estimate.fallback.
  destruct (readJson parse req); auto.
  destruct (BodySchema_safeParse is_url env j); auto.
  destruct (model_output run); auto.
  destruct (put_ok run); auto.
Qed.

(** C4. For a request past the method and origin checks: when the instants
    recorded for the client hold five or more inside the ten-minute window
    that ends now, the attempt is rejected with 429; when every recorded
    instant is ten minutes old or more, the attempt is admitted and its
    instant becomes the whole record. *)
Theorem rate_window_admission (run : Run) (req : Request) (cache : RateCache) :
  method req = lit "POST" ->
  Estimate.origin_rejected env (origin req) = false ->
  let now := date_now run in
  let ip := getIP req in
  let out := handler run req cache in
  ((RATE_MAX <= List.length (in_window now (recorded ip cache)))%nat ->
     fst (rateLimit now ip cache) = false
     /\ statusCode (snd out) = 429%nat)
  /\ ((forall t, In t (recorded ip cache) -> RATE_WINDOW_MS <= now - t) ->
        fst (rateLimit now ip cache) = true
        /\ statusCode (snd out) <> 429%nat
        /\ recorded ip (fst out) = [now]).
Proof.
  intros Hm Ho now ip out. subst out. rewrite (handler_post _ _ _ Hm Ho).
  fold now ip. cbv zeta.
  pose proof (rateLimit_recorded now ip cache) as R.
  pose proof (rateLimit_rejects_iff now ip cache) as J.
  destruct (rateLimit now ip cache) as [ok c1]. simpl in R, J. split.
  - intros H. apply J in H. subst ok. simpl. auto.
  - intros H. rewrite (in_window_all_old _ _ H) in *.
    destruct ok; [|exfalso; apply proj1 in J; specialize (J eq_refl);
                    simpl in J; unfold RATE_MAX in J; lia].
    split; auto. simpl.
    pose proof (estimate_status run req) as S.
    destruct (Estimate.estimate parse is_url env run req) as [status c].
    simpl in *. split; [|exact R].
    destruct S; lia.
Qed.

(** A POST that fails the origin check: 403, no CORS echo, and the cache
    handed back as it came. *)
Lemma handler_forbidden (run : Run) (req : Request) (cache : RateCache) :
  method req = lit "POST" ->
  Estimate.origin_rejected env (origin req) = true ->
  handler run req cache
  = (cache, Build_Response 403 None (Plain (lit "Forbidden"))).
Proof.
  intros Hm Ho. unfold Estimate.handler. rewrite Hm, Ho.
  change (str_eqb (lit "POST") (lit "OPTIONS")) with false.
  change (str_eqb (lit "POST") (lit "POST")) with true.
  cbn [negb].
  replace (Estimate.setCors env (origin req)) with (@None jsstring);
    [reflexivity|].
  unfold Estimate.origin_rejected in Ho. unfold Estimate.setCors.
  destruct (origin req) as [[|c o]|]; auto.
  apply negb_true_iff in Ho. rewrite Ho. reflexivity.
Qed.

(** C5. A POST whose origin is absent or outside the allow-set is answered
    403, and the rate cache that comes out is the one that went in, whatever
    the clock reads: the rate limiter has no part in the answer. *)
Theorem disallowed_origin_forbidden (run : Run) (req : Request) (cache : RateCache) :
  method req = lit "POST" ->
  (origin req = None
   \/ exists o, origin req = Some o /\ includes (allowedOrigins env) o = false) ->
  handler run req cache
  = (cache, Build_Response 403 None (Plain (lit "Forbidden"))).
Proof.
  intros Hm Ho. apply handler_forbidden; auto.
  unfold Estimate.origin_rejected.
  destruct Ho as [-> | (o & -> & Hin)]; auto.
  destruct o; auto. rewrite Hin. reflexivity.
Qed.

(** A body that is not an object gives one issue, at the empty path. *)
Lemma safeParse_not_an_object (items : list json) :
  BodySchema_safeParse is_url env (JArray items)
  = inr [Zod.Build_Issue Zod.invalid_type []].
Proof. reflexivity. Qed.

Lemma safeParse_missing_description (fields : list (jsstring * json)) :
  assoc (lit "description") fields = None ->
  exists issues,
    BodySchema_safeParse is_url env (JObject fields) = inr issues
    /\ In (Zod.Build_Issue Zod.invalid_type [Zod.Key (lit "description")]) issues.
Proof.
  intros H. unfold BodySchema_safeParse. rewrite H.
  destruct (Zod.string_trim_min_max 5 10 _ _) as [i1 z].
  cbn [Zod.string_trim_min_max].
  destruct (Zod.url_array_max is_url _ _ _) as [i3 u].
  destruct i1 as [|i i1]; cbn [app].
  - eexists; split; [reflexivity|]. left; reflexivity.
  - eexists; split; [reflexivity|]. right. apply in_or_app. right.
    left; reflexivity.
Qed.

(** C6. A request past the method, origin and rate checks whose body is a
    JSON object without [description] is answered 400 with an issue whose
    path is [description]; the rate cache already holds the instant of this
    request after the instants still in the window. *)
Theorem missing_description_rejected (run : Run) (req : Request)
    (cache : RateCache) (fields : list (jsstring * json)) :
  method req = lit "POST" ->
  Estimate.origin_rejected env (origin req) = false ->
  fst (rateLimit (date_now run) (getIP req) cache) = true ->
  readJson parse req = Some (JObject fields) ->
  assoc (lit "description") fields = None ->
  let out := handler run req cache in
  statusCode (snd out) = 400%nat
  /\ (exists issues,
        content (snd out) = Invalid try_again_line issues
        /\ exists i, In i issues
                     /\ Zod.path i = [Zod.Key (lit "description")])
  /\ recorded (getIP req) (fst out)
     = in_window (date_now run) (recorded (getIP req) cache) ++ [date_now run].
Proof.
  intros Hm Ho Hr Hb Hd out. subst out. rewrite (handler_post _ _ _ Hm Ho).
  cbv zeta.
  pose proof (rateLimit_recorded (date_now run) (getIP req) cache) as R.
  destruct (rateLimit _ _ cache) as [ok c1]. simpl in Hr, R. subst ok.
  cbn [negb]. unfold Estimate.estimate. rewrite Hb.
  destruct (safeParse_missing_description fields Hd) as (issues & -> & Hin).
  simpl. repeat split; auto.
  exists issues. split; auto. eexists; split; [exact Hin|reflexivity].
Qed.

Lemma drop_space_head (s r : jsstring) (c : N) :
  drop_space s = c :: r -> is_js_space c = false.
Proof.
  induction s as [|x s IH]; simpl; [discriminate|].
  destruct (is_js_space x) eqn:E; auto. intros [= <- _]. exact E.
Qed.

Lemma drop_space_suffix (s : jsstring) :
  exists p, s = p ++ drop_space s.
Proof.
  induction s as [|x s [p IH]]; simpl.
  - exists []. reflexivity.
  - destruct (is_js_space x).
    + exists (x :: p). simpl. f_equal. exact IH.
    + exists []. reflexivity.
Qed.

(** A trimmed string does not start with white space. *)
Lemma trim_head (s r : jsstring) (c : N) :
  trim s = c :: r -> is_js_space c = false.
Proof.
  unfold trim. intros H.
  destruct (drop_space_suffix (rev (drop_space s))) as [p Hp].
  apply (f_equal (@rev N)) in Hp. rewrite rev_involutive, rev_app_distr, H in Hp.
  simpl in Hp. eapply drop_space_head; eauto.
Qed.

(** Unless the model's text is empty, the customer line is its first line,
    trimmed. *)
Lemma customer_line_is_first_line (output : option jsstring) :
  let text := Estimate.model_text output in
  text <> [] ->
  Estimate.first_customer_line env text = trim (split_first 10 text).
Proof.
  intros text Hne. unfold Estimate.first_customer_line.
  assert (H : exists c r, split_first 10 text = c :: r).
  { subst text. unfold Estimate.model_text in *.
    destruct output as [s|]; [|contradiction].
    destruct (trim s) as [|c r] eqn:T; [contradiction|].
    pose proof (trim_head _ _ _ T) as Hc.
    unfold split_first. simpl.
    destruct (N.eqb_spec c 10) as [->|_]; [discriminate|].
    destruct (split_on 10 r); simpl; eauto. }
  destruct H as (c & r & ->). reflexivity.
Qed.

Lemma test_ci_spec (word line : jsstring) :
  test_ci word line = true <-> contains_ci word line.
Proof.
  unfold contains_ci. induction line as [|c line IH].
  - cbn [test_ci]. rewrite orb_false_r, starts_with_ci_spec. split.
    + intros H. exists [], (firstn (List.length word) []), [].
      split; [destruct word; reflexivity|exact H].
    + intros (pre & mid & post & E & M).
      symmetry in E. apply app_eq_nil in E as [_ E].
      apply app_eq_nil in E as [-> _].
      destruct word; [reflexivity|discriminate].
  - cbn [test_ci]. rewrite orb_true_iff, IH, starts_with_ci_spec. split.
    + intros [H | (pre & mid & post & E & M)].
      * exists [], (firstn (List.length word) (c :: line)),
          (skipn (List.length word) (c :: line)).
        split; auto. simpl. symmetry. apply firstn_skipn.
      * exists (c :: pre), mid, post. split; auto. simpl. f_equal; exact E.
    + intros (pre & mid & post & E & M). destruct pre as [|d pre].
      * left. simpl in E. rewrite E.
        replace (List.length word) with (List.length mid)
          by (rewrite <- (length_map canonicalize mid), M; apply length_map).
        rewrite <- (Nat.add_0_r (List.length mid)), firstn_app_2.
        simpl. rewrite app_nil_r. exact M.
      * right. injection E as _ E. exists pre, mid, post. auto.
Qed.

Lemma assoc_first_binding {A : Type} (k : jsstring) (v : A)
    (l : list (jsstring * A)) :
  assoc k l = Some v <->
  exists pre post, l = pre ++ (k, v) :: post /\ forall v', ~ In (k, v') pre.
Proof.
  induction l as [|[k' v'] l IH]; simpl.
  - split; [discriminate|]. intros (pre & post & E & _).
    destruct pre; discriminate.
  - destruct (str_eqb k k') eqn:E.
    + apply str_eqb_eq in E. subst k'. split.
      * intros [= ->]. exists [], l. split; auto.
      * intros (pre & post & El & Hpre). destruct pre as [|p pre].
        -- injection El as -> _. reflexivity.
        -- exfalso. injection El as <- _. apply (Hpre v'). left; reflexivity.
    + assert (Hne : k <> k').
      { intros ->. rewrite str_eqb_refl in E. discriminate. }
      rewrite IH. split.
      * intros (pre & post & -> & Hpre). exists ((k', v') :: pre), post.
        split; auto. intros x [Hx|Hx]; [congruence|exact (Hpre x Hx)].
      * intros (pre & post & El & Hpre). destruct pre as [|p pre].
        -- injection El as Hk _. congruence.
        -- injection El as _ ->. exists pre, post. split; auto.
           intros x Hx. apply (Hpre x). right; exact Hx.
Qed.

Lemma get_field_boolean (k : jsstring) (j : json) (b : bool) :
  get_field k j = Some (JBool b) <-> has_boolean_field k j b.
Proof.
  unfold has_boolean_field. destruct j as [| | | | |fields]; simpl;
    try (split; [discriminate | intros (pre & post & E & _); discriminate]).
  rewrite assoc_first_binding. split.
  - intros (pre & post & -> & H). exists pre, post. auto.
  - intros (pre & post & [= ->] & H). exists pre, post. auto.
Qed.

Lemma same_letter_canonicalize (a b : N) :
  same_letter a b <-> canonicalize a = canonicalize b.
Proof.
  unfold same_letter, canonicalize.
  destruct (N.leb_spec 97 a); destruct (N.leb_spec a 122);
    destruct (N.leb_spec 97 b); destruct (N.leb_spec b 122); simpl; lia.
Qed.

Lemma Forall2_same_letter (mid word : jsstring) :
  Forall2 same_letter mid word <->
  List.map canonicalize mid = List.map canonicalize word.
Proof.
  revert word; induction mid as [|a mid IH]; intros [|b word]; simpl.
  - split; auto.
  - split; [intros H; inversion H | discriminate].
  - split; [intros H; inversion H | discriminate].
  - split.
    + intros H. inversion H; subst. f_equal.
      * apply same_letter_canonicalize; assumption.
      * apply IH; assumption.
    + intros [= Ha Hm]. constructor.
      * apply same_letter_canonicalize, Ha.
      * apply IH, Hm.
Qed.

(** The test of the pattern under [/i] finds the word in either case of
    each letter, and nothing else. *)
Lemma test_ci_word (word line : jsstring) :
  test_ci word line = true <-> contains_word word line.
Proof.
  rewrite test_ci_spec. unfold contains_ci, contains_word.
  split; intros (pre & mid & post & E & M); exists pre, mid, post; split; auto;
    apply Forall2_same_letter; exact M.
Qed.

(** On the path that answers with the quote, the flag in the answer is the
    boolean that the field [serviceable] of the extracted JSON holds, when
    it is an object with such a field; otherwise the flag is true exactly
    when the customer line does not contain "outside", in either case of
    each letter. The customer line is the first line of the model's text,
    trimmed, unless that text is empty. *)
Lemma quote_flag_rule (run : Run) (req : Request) (cache : RateCache)
    (output : option jsstring) :
  method req = lit "POST" ->
  Estimate.origin_rejected env (origin req) = false ->
  fst (rateLimit (date_now run) (getIP req) cache) = true ->
  (exists b data, readJson parse req = Some b
                  /\ BodySchema_safeParse is_url env b = inl data) ->
  model_output run = Some output ->
  put_ok run = true ->
  let text := Estimate.model_text output in
  let parsedJson := extractJsonLoose parse text in
  let customer_line := Estimate.first_customer_line env text in
  exists flag shown,
    snd (handler run req cache)
    = Build_Response 200 (Estimate.setCors env (origin req))
        (Quote flag shown (Estimate.data_of parsedJson))
    /\ (forall b, has_boolean_field (lit "serviceable") parsedJson b -> flag = b)
    /\ ((forall b, ~ has_boolean_field (lit "serviceable") parsedJson b) ->
        (flag = true <-> ~ contains_word (lit "outside") customer_line))
    /\ (text <> [] -> customer_line = trim (split_first 10 text)).
Proof.
  intros Hm Ho Hr (b & data & Hb & Hv) Hout Hput text parsedJson customer_line.
  rewrite (handler_post _ _ _ Hm Ho). cbv zeta.
  destruct (rateLimit _ _ cache) as [ok c1]. simpl in Hr. subst ok.
  cbn [negb]. unfold Estimate.estimate. rewrite Hb, Hv, Hout.
  unfold Estimate.answer. rewrite Hput. fold text. fold parsedJson.
  fold customer_line. cbn [snd].
  eexists _, _. split; [reflexivity|].
  unfold Estimate.serviceable_of. split; [|split].
  - intros b' Hf. apply get_field_boolean in Hf. rewrite Hf. reflexivity.
  - intros Hn.
    assert (E : match get_field (lit "serviceable") parsedJson with
                | Some (JBool b0) => b0
                | _ => negb (test_ci (lit "outside") customer_line)
                end = negb (test_ci (lit "outside") customer_line)).
    { destruct (get_field (lit "serviceable") parsedJson) as [[]|] eqn:G; auto.
      exfalso. apply get_field_boolean in G. exact (Hn _ G). }
    rewrite E, negb_true_iff, <- test_ci_word.
    destruct (test_ci _ _); split; congruence.
  - apply customer_line_is_first_line.
Qed.

(** When the storage write fails, the answer is the fallback body, whatever
    the model said. *)
Lemma storage_failure_answer (run : Run) (req : Request) (cache : RateCache)
    (output : option jsstring) :
  method req = lit "POST" ->
  Estimate.origin_rejected env (origin req) = false ->
  fst (rateLimit (date_now run) (getIP req) cache) = true ->
  (exists b data, readJson parse req = Some b
                  /\ BodySchema_safeParse is_url env b = inl data) ->
  model_output run = Some output ->
  put_ok run = false ->
  snd (handler run req cache)
  = Build_Response 200 (Estimate.setCors env (origin req))
      (Quote true (FALLBACK_LINE env) (JObject [])).
Proof.
  intros Hm Ho Hr (b & data & Hb & Hv) Hout Hput.
  rewrite (handler_post _ _ _ Hm Ho). cbv zeta.
  destruct (rateLimit _ _ cache) as [ok c1]. simpl in Hr. subst ok.
  cbn [negb]. unfold Estimate.estimate. rewrite Hb, Hv, Hout.
  unfold Estimate.answer. rewrite Hput. reflexivity.
Qed.

End EstimateClaims.

(** C7, at a failing input. The sample request is admitted and valid and the
    model answers; when the record is stored the caller gets the quote, and
    when the storage write fails the caller gets the fallback body instead:
    the flag, the line and the data of the quote are lost. *)
Theorem storage_failure_drops_quote :
  snd (Estimate.handler JSON_parse sample_is_url sample_env
         (run_at 0 true) sample_request [])
  = Build_Response 200 (Some (lit "https://example.com"))
      (Quote false (lit "We are outside of the area we serve.")
         (JObject [(lit "serviceable", JBool false)]))
  /\ snd (Estimate.handler JSON_parse sample_is_url sample_env
            (run_at 0 false) sample_request [])
     = Build_Response 200 (Some (lit "https://example.com"))
         (Quote true default_fallback_line (JObject [])).
Proof. vm_compute. split; reflexivity. Qed.

(** C10, at a failing input. For the sample request, admitted and valid:
    when the record is stored, the flag in the answer is the boolean of the
    field [serviceable] where the model's JSON has one (false under a line
    that does not say outside, true under a line that says OUTSIDE), and
    otherwise false for a line that says OutSide and true for a line that
    does not. When the storage write fails, the flag is true although the
    JSON says false: the answer is the fallback body. *)
Theorem storage_failure_overrides_flag :
  let answer text stored :=
    snd (Estimate.handler JSON_parse sample_is_url sample_env
           (run_with text stored) sample_request []) in
  let quote flag line data :=
    Build_Response 200 (Some (lit "https://example.com")) (Quote flag line data) in
  answer field_false_text true
  = quote false (lit "Sorry, that address is not in our area.")
      (JObject [(lit "serviceable", JBool false)])
  /\ answer field_true_text true
     = quote true (lit "You are OUTSIDE our usual zone, but we will come.")
         (JObject [(lit "serviceable", JBool true)])
  /\ answer mixed_case_text true = quote false mixed_case_text (JObject [])
  /\ answer priced_text true = quote true priced_text (JObject [])
  /\ answer field_false_text false
     = quote true default_fallback_line (JObject []).
Proof. vm_compute. repeat split. Qed.

(* ================================================================== *)
(** * Properties of the upload-signing handler *)

Section SignClaims.

Local Open Scope Z_scope.

Variable env : Env.

Lemma stored_count_set (clock : Z) (id : jsstring) (n : Z) (counts : Sign.BatchCounts) :
  Sign.stored_count id (LRU.set Sign.batchCounts_options clock id n counts) = Some n.
Proof.
  unfold Sign.stored_count. rewrite find_set_same; [reflexivity|simpl; lia].
Qed.

(** C8, as the code has it. A token request that names a batch and passes
    the two size checks stores the live count plus one before the limit is
    looked at: within the limit the request is admitted, so an admitted
    request leaves a stored count of at most [MAX_FILES]; beyond the limit
    the request is refused, and the stored count is then above the limit. *)
Theorem batch_count_after_request (clock : Z) (meta : Sign.Meta)
    (counts : Sign.BatchCounts) (id : jsstring) :
  or_else (Sign.batchId meta) [] = id ->
  id <> [] ->
  Sign.Qgtb (Sign.megabytes (Sign.size meta)) (inject_Z (MAX_FILE_MB env)) = false ->
  Sign.Qgtb (Sign.megabytes (Sign.batchTotal meta)) (inject_Z (MAX_TOTAL_MB env)) = false ->
  let out := Sign.onBeforeGenerateToken env clock meta counts in
  let n := live_count clock id counts + 1 in
  Sign.stored_count id (fst out) = Some n
  /\ (n <= MAX_FILES env -> snd out = None)
  /\ (MAX_FILES env < n -> snd out = Some Sign.TooManyFiles).
Proof.
  intros Hid Hne Hsize Htotal out n. subst out n.
  unfold Sign.onBeforeGenerateToken, live_count.
  rewrite Hid, Hsize, Htotal.
  destruct id as [|c id]; [contradiction|]. cbn [nonempty].
  destruct (LRU.get Sign.batchCounts_options clock (c :: id) counts) as [got c1].
  cbn [fst].
  destruct (Z.ltb_spec (MAX_FILES env)
              (match got with Some n => n | None => 0 end + 1)) as [L|L];
    cbn [fst snd]; rewrite stored_count_set; repeat split; auto; lia.
Qed.

Lemma sign_status (run : Sign.Run) (counts : Sign.BatchCounts) :
  fst (snd (Sign.sign env run counts)) = 200%nat
  \/ fst (snd (Sign.sign env run counts)) = 400%nat.
Proof.
  unfold Sign.sign. destruct (Sign.event run) as [|p meta ok|ok].
  - auto.
  - destruct (Sign.onBeforeGenerateToken env _ meta counts) as [c [r|]]; auto.
    destruct ok; auto.
  - destruct ok; auto.
Qed.

(** The upload-signing handler answers a POST past its origin check with
    429 exactly when the rate limiter rejects the client. *)
Lemma sign_rate_limited (run : Sign.Run) (req : Request) (st : Sign.State) :
  method req = lit "POST" ->
  Sign.origin_rejected env (origin req) = false ->
  Sign.statusCode (snd (Sign.handler env run req st)) = 429%nat
  <-> fst (rateLimit (Sign.date_now run) (getIP req) (Sign.rateCache st)) = false.
Proof.
  intros Hm Ho. unfold Sign.handler. rewrite Hm, Ho.
  change (str_eqb (lit "POST") (lit "OPTIONS")) with false.
  change (str_eqb (lit "POST") (lit "POST")) with true.
  cbn [negb].
  destruct (rateLimit _ _ _) as [ok c1]. destruct ok; cbn [negb fst].
  - pose proof (sign_status run (Sign.batchCounts st)) as S.
    destruct (Sign.sign env run (Sign.batchCounts st)) as [c [status ct]].
    simpl in *. split; [lia|discriminate].
  - simpl. tauto.
Qed.

(** C9. With an empty allow-list the estimate handler answers every POST
    with 403, an origin header or none, and leaves the rate cache alone; the
    upload-signing handler rejects no origin and never answers 403. *)
Theorem empty_allow_list (parse : jsstring -> option json)
    (is_url : jsstring -> bool) :
  allowedOrigins env = [] ->
  (forall run req cache,
      method req = lit "POST" ->
      Estimate.handler parse is_url env run req cache
      = (cache, Build_Response 403 None (Plain (lit "Forbidden"))))
  /\ (forall run req st,
        method req = lit "POST" ->
        Sign.origin_rejected env (origin req) = false
        /\ Sign.statusCode (snd (Sign.handler env run req st)) <> 403%nat).
Proof.
  intros Hempty. split.
  - intros run req cache Hm.
    apply handler_forbidden; auto.
    unfold Estimate.origin_rejected. rewrite Hempty.
    destruct (origin req) as [[|c o]|]; reflexivity.
  - intros run req st Hm.
    assert (R : Sign.origin_rejected env (origin req) = false)
      by (unfold Sign.origin_rejected; rewrite Hempty; reflexivity).
    split; auto.
    unfold Sign.handler. rewrite Hm, R.
    change (str_eqb (lit "POST") (lit "OPTIONS")) with false.
    change (str_eqb (lit "POST") (lit "POST")) with true.
    cbn [negb].
    destruct (rateLimit _ _ _) as [ok c1]. destruct ok; cbn [negb].
    + pose proof (sign_status run (Sign.batchCounts st)) as S.
      destruct (Sign.sign env run (Sign.batchCounts st)) as [c [status ct]].
      simpl in *. destruct S; lia.
    + simpl. lia.
Qed.

End SignClaims.

Section AllowList.

Lemma drop_space_blank (s : jsstring) :
  forallb is_js_space s = true -> drop_space s = [].
Proof.
  induction s as [|c s IH]; simpl; auto.
  rewrite andb_true_iff. intros [-> H]. auto.
Qed.

Lemma split_on_blank (s : jsstring) :
  forallb is_js_space s = true -> split_on 44 s = [s].
Proof.
  induction s as [|c s IH]; simpl; auto.
  rewrite andb_true_iff. intros [Hc H]. rewrite (IH H).
  destruct (N.eqb_spec c 44) as [->|_]; [discriminate|reflexivity].
Qed.

(** An allow-list variable that is unset or blank gives the empty list. *)
Lemma blank_allow_list (env : Env) :
  unset_or_blank (ALLOWED_ORIGINS env) -> allowedOrigins env = [].
Proof.
  unfold unset_or_blank, allowedOrigins.
  destruct (ALLOWED_ORIGINS env) as [s|]; [|reflexivity].
  intros H. destruct s as [|c s]; [reflexivity|].
  cbn [or_else]. rewrite (split_on_blank _ H). cbn [List.map].
  unfold trim. rewrite (drop_space_blank _ H). reflexivity.
Qed.

End AllowList.

(** C8, as the specification states it: whatever token requests a fresh
    cache has seen, every stored count is within the limit. It fails on the
    thirteenth request of a batch under the default limit of twelve. *)
Lemma batch_count_exceeds_limit :
  ~ (forall env clock metas,
        counts_within_limit env (fst (token_requests env clock metas []))).
Proof.
  intros H.
  assert (A : (13 <= MAX_FILES default_env)%Z).
  { apply (H default_env 0%Z (repeat small_file 13) (lit "b")).
    vm_compute. reflexivity. }
  vm_compute in A. apply A. reflexivity.
Qed.

(* ================================================================== *)
(** * The theorems at concrete inputs *)

Lemma rate_window_admission_witness :
  statusCode (snd (Estimate.handler JSON_parse sample_is_url sample_env
                     (run_at 5000 true) sample_request five_recorded)) = 429%nat
  /\ statusCode (snd (Estimate.handler JSON_parse sample_is_url sample_env
                        (run_at 604000 true) sample_request five_recorded))
     <> 429%nat.
Proof.
  split.
  - destruct (rate_window_admission JSON_parse sample_is_url sample_env
                (run_at 5000 true) sample_request five_recorded
                eq_refl eq_refl) as [Hrej _].
    apply Hrej. vm_compute. lia.
  - destruct (rate_window_admission JSON_parse sample_is_url sample_env
                (run_at 604000 true) sample_request five_recorded
                eq_refl eq_refl) as [_ Hadm].
    apply Hadm.
    replace (recorded (getIP sample_request) five_recorded)
      with [0; 1000; 2000; 3000; 4000]%Z by (vm_compute; reflexivity).
    unfold RATE_WINDOW_MS. cbn [date_now run_at In].
    intros t [<-|[<-|[<-|[<-|[<-|[]]]]]]; lia.
Defined.

Lemma disallowed_origin_forbidden_witness :
  Estimate.handler JSON_parse sample_is_url sample_env (run_at 5000 true)
    (with_origin (Some (lit "https://evil.example")) sample_request)
    five_recorded
  = (five_recorded, Build_Response 403 None (Plain (lit "Forbidden"))).
Proof.
  apply (disallowed_origin_forbidden JSON_parse sample_is_url sample_env).
  - reflexivity.
  - right. exists (lit "https://evil.example"). split; reflexivity.
Defined.

Lemma missing_description_rejected_witness :
  let req := with_body (qlit "{'zip':'06226','image_urls':[]}") sample_request in
  let out := Estimate.handler JSON_parse sample_is_url sample_env
               (run_at 7000 true) req [] in
  statusCode (snd out) = 400%nat
  /\ (exists issues,
        content (snd out) = Invalid try_again_line issues
        /\ exists i, In i issues /\ Zod.path i = [Zod.Key (lit "description")])
  /\ recorded (getIP req) (fst out) = [7000%Z].
Proof.
  apply (missing_description_rejected JSON_parse sample_is_url sample_env
           (run_at 7000 true)
           (with_body (qlit "{'zip':'06226','image_urls':[]}") sample_request)
           []
           [(lit "zip", JString (lit "06226")); (lit "image_urls", JArray [])]);
    reflexivity.
Defined.

Lemma batch_count_after_request_witness :
  let twelve := fst (token_requests default_env 0 (repeat small_file 12) []) in
  let out := Sign.onBeforeGenerateToken default_env 0 small_file twelve in
  Sign.stored_count (lit "b") (fst out) = Some 13%Z
  /\ snd out = Some Sign.TooManyFiles.
Proof.
  destruct (batch_count_after_request default_env 0 small_file
              (fst (token_requests default_env 0 (repeat small_file 12) []))
              (lit "b") eq_refl)
    as (Hstored & _ & Hrefused).
  - discriminate.
  - reflexivity.
  - reflexivity.
  - split; [exact Hstored|]. apply Hrefused. vm_compute. reflexivity.
Defined.

Lemma empty_allow_list_witness :
  Estimate.handler JSON_parse sample_is_url default_env (run_at 0 true)
    sample_request []
  = ([], Build_Response 403 None (Plain (lit "Forbidden")))
  /\ Sign.statusCode
       (snd (Sign.handler default_env
               (Sign.Build_Run 0 0 (Sign.GenerateToken (lit "a.jpg") small_file true))
               sample_request (Sign.Build_State [] []))) <> 403%nat.
Proof.
  destruct (empty_allow_list default_env JSON_parse sample_is_url eq_refl)
    as [E S].
  split.
  - apply E. reflexivity.
  - apply S. reflexivity.
Defined.

(* ================================================================== *)
(** * More on the extractor: the brace span and the repair *)

Section BraceSpan.

Local Open Scope nat_scope.

Lemma fence_exec_no_fence (text : jsstring) :
  no_json_fence text <-> fence_exec text = None.
Proof.
  unfold no_json_fence. split.
  - intros H. destruct (fence_exec text) as [i|] eqn:E; auto.
    apply fence_exec_spec in E. exfalso. exact (H i E).
  - intros E i Hi. apply fence_exec_spec in Hi. congruence.
Qed.

Lemma fence_exec_no_opener (text : jsstring) :
  no_opener text -> fence_exec text = None.
Proof.
  intros H. destruct (fence_exec text) as [i|] eqn:E; auto.
  apply fence_exec_chars in E. destruct E as (k & Hk & _).
  exfalso. exact (H k Hk).
Qed.

Lemma canonicalize_backtick (c : N) : canonicalize c = 96%N -> c = 96%N.
Proof.
  unfold canonicalize.
  destruct (N.leb_spec 97 c); destruct (N.leb_spec c 122); simpl; lia.
Qed.

Lemma In_skipn {A} (x : A) (n : nat) (l : list A) : In x (skipn n l) -> In x l.
Proof.
  revert l; induction n as [|n IH]; intros [|y l]; simpl; auto.
Qed.

Lemma In_firstn {A} (x : A) (n : nat) (l : list A) : In x (firstn n l) -> In x l.
Proof.
  revert l; induction n as [|n IH]; intros [|y l]; simpl; auto.
  - contradiction.
  - intros [->|H]; auto.
Qed.

(** A text without a backtick has no opener. *)
Lemma no_backtick_no_opener (text : jsstring) :
  ~ In 96%N text -> no_opener text.
Proof.
  intros H k Hk. apply H. unfold opener_at in Hk.
  destruct (firstn 7 (skipn k text)) as [|c l] eqn:E; [discriminate|].
  simpl in Hk. injection Hk as Hc _. apply canonicalize_backtick in Hc. subst c.
  apply (In_skipn _ k), (In_firstn _ 7). rewrite E. left; reflexivity.
Qed.

Lemma indexOf_none (c : N) (s : jsstring) : ~ In c s -> indexOf c s = None.
Proof.
  induction s as [|x s IH]; simpl; auto. intros H.
  destruct (N.eqb_spec x c) as [->|_]; [exfalso; auto|].
  rewrite IH; auto.
Qed.

Lemma indexOf_first (c : N) (pre rest : jsstring) :
  ~ In c pre -> indexOf c (pre ++ c :: rest) = Some (List.length pre).
Proof.
  induction pre as [|x pre IH]; simpl; intros H.
  - rewrite N.eqb_refl. reflexivity.
  - destruct (N.eqb_spec x c) as [->|_]; [exfalso; auto|].
    rewrite IH; auto.
Qed.

Lemma lastIndexOf_none (c : N) (s : jsstring) : ~ In c s -> lastIndexOf c s = None.
Proof.
  induction s as [|x s IH]; simpl; auto. intros H.
  rewrite IH by auto.
  destruct (N.eqb_spec x c) as [->|_]; [exfalso; auto|reflexivity].
Qed.

Lemma lastIndexOf_last (c : N) (pre post : jsstring) :
  ~ In c post -> lastIndexOf c (pre ++ c :: post) = Some (List.length pre).
Proof.
  intros H. induction pre as [|x pre IH]; simpl.
  - rewrite lastIndexOf_none by exact H. rewrite N.eqb_refl. reflexivity.
  - rewrite IH. reflexivity.
Qed.

(** The brace span runs from the first opening brace to the last closing
    brace. *)
Lemma brace_span_spec (pre mid post : jsstring) :
  ~ In 123%N pre -> ~ In 125%N post ->
  brace_span (pre ++ 123%N :: mid ++ 125%N :: post)
  = Some (123%N :: mid ++ [125%N]).
Proof.
  intros Hpre Hpost. unfold brace_span.
  rewrite (indexOf_first _ _ _ Hpre).
  replace (pre ++ 123%N :: mid ++ 125%N :: post)
    with ((pre ++ 123%N :: mid) ++ 125%N :: post)
    by (rewrite <- app_assoc; reflexivity).
  rewrite (lastIndexOf_last _ _ _ Hpost).
  rewrite length_app. simpl List.length.
  destruct (Nat.ltb_spec (List.length pre)
              (List.length pre + S (List.length mid))) as [_|L]; [|lia].
  unfold slice. f_equal.
  rewrite <- app_assoc. rewrite skipn_app, skipn_all, Nat.sub_diag.
  simpl skipn. simpl app.
  replace (List.length pre + S (List.length mid) + 1 - List.length pre)
    with (S (List.length mid + 1)) by lia.
  simpl. f_equal.
  replace (mid ++ 125%N :: post) with ((mid ++ [125%N]) ++ post)
    by (rewrite <- app_assoc; reflexivity).
  rewrite <- (length_app mid [125%N]) at 1.
  rewrite <- (Nat.add_0_r (List.length (mid ++ [125%N]))).
  rewrite firstn_app_2. simpl. apply app_nil_r.
Qed.

Variable parse : jsstring -> option json.

(** X1. Without a json-labelled fence (an opener that is never closed is
    not one), the text from the first opening brace to the last closing
    brace is the candidate: when it parses, its value is the result,
    whatever stands before and after. *)
Theorem plain_object_extracted (pre mid post : jsstring) (v : json) :
  no_json_fence (pre ++ 123%N :: mid ++ 125%N :: post) ->
  ~ In 123%N pre -> ~ In 125%N post ->
  parse (123%N :: mid ++ [125%N]) = Some v ->
  extractJsonLoose parse (pre ++ 123%N :: mid ++ 125%N :: post) = v.
Proof.
  intros Hno Hpre Hpost Hp. unfold extractJsonLoose.
  rewrite (proj1 (fence_exec_no_fence _) Hno), (brace_span_spec _ _ _ Hpre Hpost).
  unfold parse_loose. rewrite Hp. reflexivity.
Qed.

(** X2. Without a json-labelled fence (an opener that is never closed is
    not one), a text that lacks an opening brace, or a closing one, gives
    [null], whatever [JSON.parse] would make of it. *)
Theorem no_brace_nothing_extracted (text : jsstring) :
  no_json_fence text ->
  ~ In 123%N text \/ ~ In 125%N text ->
  extractJsonLoose parse text = JNull.
Proof.
  intros Hno H. unfold extractJsonLoose.
  rewrite (proj1 (fence_exec_no_fence _) Hno). unfold brace_span.
  destruct H as [H|H].
  - rewrite (indexOf_none _ _ H). reflexivity.
  - rewrite (lastIndexOf_none _ _ H).
    destruct (indexOf 123%N text); reflexivity.
Qed.

End BraceSpan.

Section Repair.

Local Open Scope nat_scope.

Lemma replace_comma_close_no_comma (fuel : nat) (close : N) (s : jsstring) :
  ~ In 44%N s -> replace_comma_close fuel close s = s.
Proof.
  revert s; induction fuel as [|fuel IH]; intros s H; simpl; auto.
  destruct s as [|c s]; auto.
  assert (Hc : c <> 44%N) by (intros ->; apply H; left; reflexivity).
  assert (E : comma_close_at close (c :: s) = None).
  { unfold comma_close_at.
    destruct c as [|p]; auto.
    do 6 (destruct p as [p|p|]; auto). congruence. }
  rewrite E. f_equal. apply IH. intros Hin. apply H. right; exact Hin.
Qed.

(** X3. The repair leaves a text without a comma as it is. *)
Theorem repair_without_comma (raw : jsstring) :
  ~ In 44%N raw -> repair raw = raw.
Proof.
  intros H. unfold repair.
  rewrite (replace_comma_close_no_comma _ _ _ H).
  apply replace_comma_close_no_comma, H.
Qed.

Lemma drop_space_length (s : jsstring) :
  List.length (drop_space s) <= List.length s.
Proof.
  induction s as [|c s IH]; simpl; auto.
  destruct (is_js_space c); simpl; lia.
Qed.

Lemma comma_close_at_length (close : N) (s rest : jsstring) :
  comma_close_at close s = Some rest -> List.length rest + 2 <= List.length s.
Proof.
  unfold comma_close_at. destruct s as [|c s]; [discriminate|].
  destruct (N.eqb_spec c 44) as [->|Hc].
  - pose proof (drop_space_length s) as L.
    destruct (drop_space s) as [|d r]; [discriminate|].
    destruct (d =? close)%N; [|discriminate].
    intros [= <-]. simpl in *. lia.
  - destruct c as [|p]; [discriminate|].
    do 6 (destruct p as [p|p|]; try discriminate). congruence.
Qed.

Lemma replace_comma_close_length (fuel : nat) (close : N) (s : jsstring) :
  List.length (replace_comma_close fuel close s) <= List.length s.
Proof.
  revert s; induction fuel as [|fuel IH]; intros s; simpl; auto.
  destruct s as [|c s]; auto.
  destruct (comma_close_at close (c :: s)) as [rest|] eqn:E.
  - apply comma_close_at_length in E. specialize (IH rest). simpl in *. lia.
  - specialize (IH s). simpl. lia.
Qed.

(** The repair only deletes: its result is never longer than the text. *)
Theorem repair_never_longer (raw : jsstring) :
  List.length (repair raw) <= List.length raw.
Proof.
  unfold repair.
  pose proof (replace_comma_close_length (List.length raw) 125 raw) as A.
  pose proof (replace_comma_close_length
                (List.length (replace_comma_close (List.length raw) 125 raw))
                93 (replace_comma_close (List.length raw) 125 raw)) as B.
  lia.
Qed.

End Repair.

(* ================================================================== *)
(** * More on the rate limiter: bounds and other clients *)

Section CacheFrame.

Local Open Scope nat_scope.

Context {V : Type}.

Lemma find_remove_other (k k' : jsstring) (c : LRU.t V) :
  k' <> k -> LRU.find k' (LRU.remove k c) = LRU.find k' c.
Proof.
  intros Hne. induction c as [|e c IH]; simpl; auto.
  destruct (str_eqb k (LRU.key e)) eqn:E; simpl.
  - apply str_eqb_eq in E. subst k.
    destruct (str_eqb k' (LRU.key e)) eqn:E'; auto.
    apply str_eqb_eq in E'. contradiction.
  - rewrite IH. reflexivity.
Qed.

Lemma remove_length (k : jsstring) (c : LRU.t V) :
  List.length (LRU.remove k c) <= List.length c.
Proof.
  induction c as [|e c IH]; simpl; auto.
  destruct (str_eqb k (LRU.key e)); simpl; lia.
Qed.

Lemma remove_length_found (k : jsstring) (c : LRU.t V) (e : LRU.entry V) :
  LRU.find k c = Some e -> List.length (LRU.remove k c) < List.length c.
Proof.
  induction c as [|e' c IH]; simpl; [discriminate|].
  destruct (str_eqb k (LRU.key e')); simpl.
  - intros _. pose proof (remove_length k c). lia.
  - intros H. specialize (IH H). lia.
Qed.

Lemma find_firstn (k : jsstring) (n : nat) (c : LRU.t V) :
  LRU.find k (firstn n c) = LRU.find k c \/ LRU.find k (firstn n c) = None.
Proof.
  revert c; induction n as [|n IH]; intros [|e c]; simpl; auto.
  destruct (str_eqb k (LRU.key e)); auto.
Qed.

Lemma get_length (o : LRU.options) (now : Z) (k : jsstring) (c : LRU.t V) :
  List.length (snd (LRU.get o now k c)) <= List.length c.
Proof.
  unfold LRU.get. destruct (LRU.find k c) as [e|] eqn:F; simpl; auto.
  pose proof (remove_length_found _ _ _ F).
  destruct (LRU.stale o now e); simpl; lia.
Qed.

Lemma get_find_other (o : LRU.options) (now : Z) (k k' : jsstring) (c : LRU.t V) :
  k' <> k -> LRU.find k' (snd (LRU.get o now k c)) = LRU.find k' c.
Proof.
  intros Hne. unfold LRU.get. destruct (LRU.find k c) as [e|] eqn:F; simpl; auto.
  destruct (LRU.stale o now e); simpl.
  - apply find_remove_other, Hne.
  - rewrite (find_key _ _ _ F).
    destruct (str_eqb k' k) eqn:E; [apply str_eqb_eq in E; contradiction|].
    apply find_remove_other, Hne.
Qed.

Lemma set_length (o : LRU.options) (now : Z) (k : jsstring) (v : V) (c : LRU.t V) :
  List.length (LRU.set o now k v c) <= LRU.max o.
Proof. unfold LRU.set. rewrite length_firstn. lia. Qed.

Lemma set_find_other (o : LRU.options) (now : Z) (k k' : jsstring) (v : V)
    (c : LRU.t V) :
  k' <> k ->
  LRU.find k' (LRU.set o now k v c) = LRU.find k' c
  \/ LRU.find k' (LRU.set o now k v c) = None.
Proof.
  intros Hne. unfold LRU.set.
  destruct (find_firstn k' (LRU.max o) (LRU.Entry k v now :: LRU.remove k c))
    as [H|H]; [left|right; exact H].
  rewrite H. simpl.
  destruct (str_eqb k' k) eqn:E; [apply str_eqb_eq in E; contradiction|].
  apply find_remove_other, Hne.
Qed.

Lemma set_find_other_room (o : LRU.options) (now : Z) (k k' : jsstring) (v : V)
    (c : LRU.t V) :
  k' <> k ->
  S (List.length (LRU.remove k c)) <= LRU.max o ->
  LRU.find k' (LRU.set o now k v c) = LRU.find k' c.
Proof.
  intros Hne Hroom. unfold LRU.set.
  rewrite firstn_all2 by (simpl; lia). simpl.
  destruct (str_eqb k' k) eqn:E; [apply str_eqb_eq in E; contradiction|].
  apply find_remove_other, Hne.
Qed.

End CacheFrame.

Section RateBounds.

Local Open Scope nat_scope.

(** X5. The rate cache never grows past its five thousand clients. *)
Theorem rateLimit_cache_size (now : Z) (ip : jsstring) (cache : RateCache) :
  List.length cache <= 5000 ->
  List.length (snd (rateLimit now ip cache)) <= 5000.
Proof.
  intros H. rewrite rateLimit_unfold. cbv zeta.
  destruct (RATE_MAX <=? _); cbn [snd].
  - pose proof (get_length rateCache_options now ip cache). lia.
  - apply (set_length rateCache_options).
Qed.

Lemma recorded_find (ip : jsstring) (c1 c2 : RateCache) :
  LRU.find ip c1 = LRU.find ip c2 -> recorded ip c1 = recorded ip c2.
Proof. unfold recorded. intros ->. reflexivity. Qed.

Lemma recorded_absent (ip : jsstring) (c : RateCache) :
  LRU.find ip c = None -> recorded ip c = [].
Proof. unfold recorded. intros ->. reflexivity. Qed.

Lemma other_client_cases (now : Z) (ip ip' : jsstring) (cache : RateCache) :
  ip' <> ip ->
  recorded ip' (snd (rateLimit now ip cache)) = recorded ip' cache
  \/ recorded ip' (snd (rateLimit now ip cache)) = [].
Proof.
  intros Hne. rewrite rateLimit_unfold. cbv zeta.
  pose proof (get_find_other rateCache_options now ip ip' cache Hne) as G.
  destruct (RATE_MAX <=? _); cbn [snd].
  - left. apply recorded_find, G.
  - destruct (set_find_other rateCache_options now ip ip'
                (in_window now (recorded ip cache) ++ [now])
                (snd (LRU.get rateCache_options now ip cache)) Hne) as [E|E].
    + left. apply recorded_find. rewrite E. exact G.
    + right. apply recorded_absent, E.
Qed.

(** X6. A call for one client leaves the record of any other client as it
    was, or evicts it; it never alters it. *)
Theorem rateLimit_other_client (now : Z) (ip ip' : jsstring) (cache : RateCache) :
  ip' <> ip ->
  recorded ip' (snd (rateLimit now ip cache)) = recorded ip' cache
  \/ recorded ip' (snd (rateLimit now ip cache)) = [].
Proof. apply other_client_cases. Qed.

(** X7. While the cache holds fewer than five thousand clients, a call for one
    client leaves the record of every other client as it was. *)
Theorem other_clients_untouched_with_room (now : Z) (ip ip' : jsstring)
    (cache : RateCache) :
  ip' <> ip ->
  List.length cache < 5000 ->
  recorded ip' (snd (rateLimit now ip cache)) = recorded ip' cache.
Proof.
  intros Hne Hroom. rewrite rateLimit_unfold. cbv zeta.
  pose proof (get_find_other rateCache_options now ip ip' cache Hne) as G.
  destruct (RATE_MAX <=? _); cbn [snd]; apply recorded_find; auto.
  rewrite set_find_other_room; auto.
  pose proof (remove_length ip (snd (LRU.get rateCache_options now ip cache))).
  pose proof (get_length rateCache_options now ip cache).
  simpl LRU.max. lia.
Qed.

(** X4. No client ever has more than five instants on record: the bound is kept
    by every call, for whichever client. *)
Theorem rateLimit_records_bounded (now : Z) (ip : jsstring) (cache : RateCache) :
  records_bounded cache -> records_bounded (snd (rateLimit now ip cache)).
Proof.
  intros H ip'. destruct (list_eq_dec N.eq_dec ip' ip) as [->|Hne].
  - rewrite rateLimit_recorded.
    destruct (fst (rateLimit now ip cache)) eqn:E; [|apply H].
    rewrite length_app. simpl.
    assert (~ RATE_MAX <= List.length (in_window now (recorded ip cache))).
    { intros L. apply rateLimit_rejects_iff in L. congruence. }
    unfold RATE_MAX in *. lia.
  - destruct (other_client_cases now ip ip' cache Hne) as [-> | ->].
    + apply H.
    + simpl. unfold RATE_MAX. lia.
Qed.

End RateBounds.

(* ================================================================== *)
(** * The client address and the allow-list *)

Section TrimFacts.

Lemma drop_space_fixed (c : N) (r : jsstring) :
  is_js_space c = false -> drop_space (c :: r) = c :: r.
Proof. intros H. simpl. rewrite H. reflexivity. Qed.

(** Trimming a trimmed string changes nothing. *)
Lemma trim_trimmed (s : jsstring) : trim (trim s) = trim s.
Proof.
  destruct (trim s) as [|c r] eqn:T; [reflexivity|].
  pose proof (trim_head _ _ _ T) as Hc.
  unfold trim at 1. rewrite (drop_space_fixed _ _ Hc).
  assert (R : rev (c :: r) = drop_space (rev (drop_space s))).
  { rewrite <- T. unfold trim. apply rev_involutive. }
  destruct (rev (c :: r)) as [|d r'] eqn:E.
  - apply (f_equal (@List.length N)) in E. rewrite length_rev in E. discriminate.
  - symmetry in R. pose proof (drop_space_head _ _ _ R) as Hd.
    rewrite (drop_space_fixed _ _ Hd), <- E. apply rev_involutive.
Qed.

Lemma drop_space_incl (x : N) (s : jsstring) : In x (drop_space s) -> In x s.
Proof.
  induction s as [|c s IH]; simpl; auto.
  destruct (is_js_space c); simpl; auto.
Qed.

Lemma trim_incl (x : N) (s : jsstring) : In x (trim s) -> In x s.
Proof.
  unfold trim. intros H. apply in_rev in H. apply drop_space_incl in H.
  apply in_rev in H. apply drop_space_incl in H. exact H.
Qed.

Lemma split_on_whole (sep : N) (a : jsstring) :
  ~ In sep a -> split_on sep a = [a].
Proof.
  induction a as [|c a IH]; simpl; auto. intros H.
  destruct (N.eqb_spec c sep) as [->|_]; [exfalso; auto|].
  rewrite IH by auto. reflexivity.
Qed.

Lemma split_on_app (sep : N) (a b : jsstring) :
  ~ In sep a -> split_on sep (a ++ sep :: b) = a :: split_on sep b.
Proof.
  induction a as [|c a IH]; simpl; intros H.
  - rewrite N.eqb_refl. reflexivity.
  - destruct (N.eqb_spec c sep) as [->|_]; [exfalso; auto|].
    rewrite IH by auto. reflexivity.
Qed.

Lemma split_on_parts (sep : N) (s : jsstring) :
  Forall (fun p => ~ In sep p) (split_on sep s).
Proof.
  induction s as [|c s IH]; simpl.
  - constructor; auto.
  - destruct (N.eqb_spec c sep) as [->|Hc].
    + constructor; auto.
    + destruct (split_on sep s) as [|h t]; inversion IH; subst;
        constructor; auto.
      * simpl. intros [E|[]]. auto.
      * simpl. intros [E|E]; auto.
Qed.

End TrimFacts.

Section ClientAddress.

(** X10. With a forwarded-for header whose first entry is not empty, the client
    is that entry, trimmed: the peer address plays no part. *)
Theorem getIP_forwarded (req : Request) (first : jsstring) :
  first <> [] ->
  ~ In 44 first ->
  (x_forwarded_for req = Some first
   \/ exists rest, x_forwarded_for req = Some (first ++ 44 :: rest)) ->
  getIP req = trim first.
Proof.
  intros Hne Hc Hx. unfold getIP, split_first.
  assert (E : hd [] (split_on 44 (or_else (x_forwarded_for req) [])) = first).
  { destruct Hx as [-> | (rest & ->)].
    - destruct first as [|c f]; [contradiction|]. cbn [or_else].
      rewrite split_on_whole by exact Hc. reflexivity.
    - destruct first as [|c f]; [contradiction|]. cbn [or_else app].
      change (c :: f ++ 44 :: rest) with ((c :: f) ++ 44 :: rest).
      rewrite split_on_app by exact Hc. reflexivity. }
  rewrite E. destruct first; [contradiction|]. reflexivity.
Qed.

(** Without a forwarded-for header, or with one that is empty or starts
    with a comma, the client is the peer address, trimmed, or [unknown] when
    there is none. *)
Theorem getIP_fallback (req : Request) :
  (x_forwarded_for req = None
   \/ x_forwarded_for req = Some []
   \/ exists rest, x_forwarded_for req = Some (44 :: rest)) ->
  getIP req = trim (or_else (remoteAddress req) (lit "unknown")).
Proof.
  intros H. unfold getIP, split_first.
  destruct H as [-> | [-> | (rest & ->)]]; reflexivity.
Qed.

(** The client identifier never starts or ends with white space. *)
Theorem getIP_trimmed (req : Request) : trim (getIP req) = getIP req.
Proof. unfold getIP. apply trim_trimmed. Qed.

End ClientAddress.

Section AllowListEntries.

Lemma split_on_join (parts : list jsstring) :
  parts <> [] ->
  Forall (fun p => ~ In 44 p) parts ->
  split_on 44 (join_commas parts) = parts.
Proof.
  induction parts as [|p parts IH]; [contradiction|]. intros _ H.
  inversion H as [|? ? Hp Hrest]; subst.
  destruct parts as [|q parts].
  - simpl. apply split_on_whole, Hp.
  - change (join_commas (p :: q :: parts))
      with (p ++ 44 :: join_commas (q :: parts)).
    rewrite split_on_app by exact Hp. f_equal. apply IH; auto. discriminate.
Qed.

Lemma includes_In (l : list jsstring) (o : jsstring) :
  includes l o = true <-> In o l.
Proof.
  unfold includes. rewrite existsb_exists. split.
  - intros (x & Hx & E). apply str_eqb_eq in E. subst. exact Hx.
  - intros H. exists o. split; auto. apply str_eqb_refl.
Qed.

Lemma nonempty_true (s : jsstring) : nonempty s = true <-> s <> [].
Proof. destruct s; simpl; split; congruence. Qed.

(** X11. The allow-list is the comma-separated entries of the variable, each
    trimmed, the blank ones dropped: an origin is accepted exactly when it
    is not empty and is one of the entries up to surrounding white space. *)
Theorem allow_list_membership (env : Env) (parts : list jsstring) (o : jsstring) :
  ALLOWED_ORIGINS env = Some (join_commas parts) ->
  Forall (fun p => ~ In 44 p) parts ->
  (includes (allowedOrigins env) o = true
   <-> o <> [] /\ exists p, In p parts /\ trim p = o).
Proof.
  intros He Hp. unfold allowedOrigins. rewrite He.
  assert (E : filter nonempty
                (List.map trim (split_on 44 (or_else (Some (join_commas parts)) [])))
              = filter nonempty (List.map trim parts)).
  { replace (or_else (Some (join_commas parts)) []) with (join_commas parts)
      by (destruct (join_commas parts); reflexivity).
    destruct parts as [|p parts]; [reflexivity|].
    rewrite split_on_join; auto. discriminate. }
  rewrite E, includes_In, filter_In, in_map_iff, nonempty_true.
  split.
  - intros [(p & Ht & Hin) Hne]. split; auto. exists p. auto.
  - intros [Hne (p & Hin & Ht)]. split; auto. exists p. auto.
Qed.

(** X12. Whatever the variable holds, every entry of the allow-list is not
    empty, is trimmed and holds no comma. *)
Theorem allow_list_entries_clean (env : Env) (o : jsstring) :
  In o (allowedOrigins env) ->
  o <> [] /\ trim o = o /\ ~ In 44 o.
Proof.
  unfold allowedOrigins. rewrite filter_In, in_map_iff, nonempty_true.
  intros [(p & <- & Hin) Hne]. split; auto. split.
  - apply trim_trimmed.
  - intros Hc. apply trim_incl in Hc.
    pose proof (split_on_parts 44 (or_else (ALLOWED_ORIGINS env) [])) as F.
    rewrite Forall_forall in F. exact (F p Hin Hc).
Qed.

End AllowListEntries.

(* ================================================================== *)
(** * More on the estimate handler *)

Section EstimateMore.

Variable parse : jsstring -> option json.
Variable is_url : jsstring -> bool.
Variable env : Env.

Local Open Scope nat_scope.

Local Abbreviation handler := (Estimate.handler parse is_url env).

Lemma handler_cors (run : Run) (req : Request) (cache : RateCache) :
  allow_origin (snd (handler run req cache)) = Estimate.setCors env (origin req).
Proof.
  unfold Estimate.handler.
  destruct (str_eqb (method req) (lit "OPTIONS")); [reflexivity|].
  destruct (negb (str_eqb (method req) (lit "POST"))); [reflexivity|].
  destruct (Estimate.origin_rejected env (origin req)); [reflexivity|].
  destruct (rateLimit _ _ cache) as [ok c1]. destruct ok; cbn [negb].
  - destruct (Estimate.estimate parse is_url env run req). reflexivity.
  - reflexivity.
Qed.

(** X13. The handler answers with one of six status codes, none of them a
    server error. *)
Theorem estimate_status_codes (run : Run) (req : Request) (cache : RateCache) :
  In (statusCode (snd (handler run req cache))) [200; 204; 400; 403; 405; 429].
Proof.
  unfold Estimate.handler.
  destruct (str_eqb (method req) (lit "OPTIONS")); [simpl; tauto|].
  destruct (negb (str_eqb (method req) (lit "POST"))); [simpl; tauto|].
  destruct (Estimate.origin_rejected env (origin req)); [simpl; tauto|].
  destruct (rateLimit _ _ cache) as [ok c1]. destruct ok; cbn [negb].
  - pose proof (estimate_status parse is_url env run req) as S.
    destruct (Estimate.estimate parse is_url env run req) as [status c].
    simpl in *. destruct S as [-> | ->]; tauto.
  - simpl; tauto.
Qed.

(** X14. A request that is not a POST never touches the rate cache: a preflight
    is answered 204 with no content, whatever its origin, and any other
    method 405. *)
Theorem other_methods_leave_cache (run : Run) (req : Request) (cache : RateCache) :
  method req <> lit "POST" ->
  fst (handler run req cache) = cache
  /\ (method req = lit "OPTIONS" ->
      statusCode (snd (handler run req cache)) = 204
      /\ content (snd (handler run req cache)) = NoContent)
  /\ (method req <> lit "OPTIONS" ->
      statusCode (snd (handler run req cache)) = 405).
Proof.
  intros Hm. unfold Estimate.handler.
  destruct (str_eqb (method req) (lit "OPTIONS")) eqn:Eo.
  - cbn [fst snd statusCode content]. split; [reflexivity|]. split.
    + intros _. split; reflexivity.
    + intros Hn. apply str_eqb_eq in Eo. contradiction.
  - destruct (str_eqb (method req) (lit "POST")) eqn:Ep.
    + apply str_eqb_eq in Ep. contradiction.
    + cbn [negb fst snd statusCode content]. split; [reflexivity|]. split.
      * intros Hopt. rewrite Hopt in Eo. discriminate.
      * intros _. reflexivity.
Qed.

(** X15. The origin echoed in the CORS header, when there is one, is the origin
    of the request and belongs to the allow-list. *)
Theorem cors_echoes_allowed_origin (run : Run) (req : Request)
    (cache : RateCache) (o : jsstring) :
  allow_origin (snd (handler run req cache)) = Some o ->
  origin req = Some o /\ In o (allowedOrigins env).
Proof.
  rewrite handler_cors. unfold Estimate.setCors.
  destruct (origin req) as [[|c o']|]; try discriminate.
  destruct (includes (allowedOrigins env) (c :: o')) eqn:E; [|discriminate].
  intros [= <-]. split; auto. apply includes_In, E.
Qed.

(** X16. An admitted request has used its slot, whatever happens next: body
    unreadable or invalid, model or storage failing, or a quote returned,
    the cache holds the instants still in the window and then this one. *)
Theorem admitted_slot_is_spent (run : Run) (req : Request) (cache : RateCache) :
  method req = lit "POST" ->
  Estimate.origin_rejected env (origin req) = false ->
  fst (rateLimit (date_now run) (getIP req) cache) = true ->
  recorded (getIP req) (fst (handler run req cache))
  = in_window (date_now run) (recorded (getIP req) cache) ++ [date_now run].
Proof.
  intros Hm Ho Hr. rewrite (handler_post _ _ _ _ _ _ Hm Ho). cbv zeta.
  pose proof (rateLimit_recorded (date_now run) (getIP req) cache) as R.
  destruct (rateLimit _ _ cache) as [ok c1]. simpl in Hr, R. subst ok.
  cbn [negb]. destruct (Estimate.estimate parse is_url env run req).
  exact R.
Qed.

(** X17. Past admission, a body that does not parse, a model call that throws
    and a storage write that fails all give the same answer: 200 with the
    fallback line, the flag set and empty data. *)
Theorem downstream_failure_fallback (run : Run) (req : Request) (cache : RateCache) :
  method req = lit "POST" ->
  Estimate.origin_rejected env (origin req) = false ->
  fst (rateLimit (date_now run) (getIP req) cache) = true ->
  (readJson parse req = None
   \/ exists b data,
        readJson parse req = Some b
        /\ BodySchema_safeParse is_url env b = inl data
        /\ (model_output run = None \/ put_ok run = false)) ->
  snd (handler run req cache)
  = Build_Response 200 (Estimate.setCors env (origin req))
      (Quote true (FALLBACK_LINE env) (JObject [])).
Proof.
  intros Hm Ho Hr H. rewrite (handler_post _ _ _ _ _ _ Hm Ho). cbv zeta.
  destruct (rateLimit _ _ cache) as [ok c1]. simpl in Hr. subst ok.
  cbn [negb]. unfold Estimate.estimate.
  destruct H as [-> | (b & data & -> & -> & [-> | Hp])]; try reflexivity.
  destruct (model_output run); [|reflexivity].
  unfold Estimate.answer. rewrite Hp. reflexivity.
Qed.

Lemma FALLBACK_LINE_nonempty : FALLBACK_LINE env <> [].
Proof.
  unfold FALLBACK_LINE, or_else.
  destruct (FALLBACK_CUSTOMER_LINE env) as [[|c s]|]; discriminate.
Qed.

(** X18. Every quote-shaped answer carries a customer line that is not empty. *)
Theorem customer_line_never_empty (run : Run) (req : Request) (cache : RateCache)
    (flag : bool) (line : jsstring) (data : json) :
  content (snd (handler run req cache)) = Quote flag line data ->
  line <> [].
Proof.
  unfold Estimate.handler.
  destruct (str_eqb (method req) (lit "OPTIONS")); [discriminate|].
  destruct (negb (str_eqb (method req) (lit "POST"))); [discriminate|].
  destruct (Estimate.origin_rejected env (origin req)); [discriminate|].
  destruct (rateLimit _ _ cache) as [ok c1]. destruct ok; cbn [negb];
    [|discriminate].
  unfold Estimate.estimate, Estimate.answer, Estimate.fallback.
  pose proof FALLBACK_LINE_nonempty as F.
  destruct (readJson parse req) as [b|]; [|intros [= _ <- _]; exact F].
  destruct (BodySchema_safeParse is_url env b); [|discriminate].
  destruct (model_output run) as [output|]; [|intros [= _ <- _]; exact F].
  destruct (put_ok run); [|intros [= _ <- _]; exact F].
  cbn [snd content]. intros [= _ <- _].
  destruct (Estimate.first_customer_line env (Estimate.model_text output));
    [exact F|discriminate].
Qed.

(** X19. An empty body is read as the empty object: with a [JSON.parse] that
    reads a pair of braces as the empty object, the answer is 400 with three
    issues, one for each missing field, in the order of the schema. *)
Theorem empty_body_three_issues (run : Run) (req : Request) (cache : RateCache) :
  parse (lit "{}") = Some (JObject []) ->
  method req = lit "POST" ->
  Estimate.origin_rejected env (origin req) = false ->
  fst (rateLimit (date_now run) (getIP req) cache) = true ->
  body req = [] ->
  snd (handler run req cache)
  = Build_Response 400 (Estimate.setCors env (origin req))
      (Invalid try_again_line
         [Zod.Build_Issue Zod.invalid_type [Zod.Key (lit "zip")];
          Zod.Build_Issue Zod.invalid_type [Zod.Key (lit "description")];
          Zod.Build_Issue Zod.invalid_type [Zod.Key (lit "image_urls")]]).
Proof.
  intros Hp Hm Ho Hr Hb. rewrite (handler_post _ _ _ _ _ _ Hm Ho). cbv zeta.
  destruct (rateLimit _ _ cache) as [ok c1]. simpl in Hr. subst ok.
  cbn [negb]. unfold Estimate.estimate, readJson. rewrite Hb.
  cbn [or_else]. rewrite Hp. reflexivity.
Qed.

End EstimateMore.

Section SchemaSoundness.

Variable is_url : jsstring -> bool.

Local Open Scope nat_scope.

Lemma string_trim_min_max_ok (lo hi : nat) (p : list Zod.PathElem)
    (v : option json) (out : jsstring) :
  Zod.string_trim_min_max lo hi p v = ([], out) ->
  exists s, v = Some (JString s) /\ out = trim s
            /\ lo <= List.length out <= hi.
Proof.
  unfold Zod.string_trim_min_max.
  destruct v as [[| | |s| |]|]; try discriminate.
  destruct (Nat.ltb_spec (List.length (trim s)) lo); [discriminate|].
  destruct (Nat.ltb_spec hi (List.length (trim s))); [discriminate|].
  intros [= <-]. exists s. repeat split; auto.
Qed.

Lemma url_items_ok (p : list Zod.PathElem) (i : nat) (l : list json)
    (urls : list jsstring) :
  Zod.url_items is_url p i l = ([], urls) ->
  l = List.map JString urls /\ forallb is_url urls = true.
Proof.
  revert i urls; induction l as [|v l IH]; intros i urls; simpl.
  - intros [= <-]. auto.
  - destruct (Zod.url_items is_url p (S i) l) as [issues us] eqn:E.
    destruct v; try discriminate.
    destruct (is_url s) eqn:U; [|discriminate].
    simpl. intros [= -> <-]. destruct (IH _ _ E) as [-> F].
    simpl. rewrite U, F. auto.
Qed.

(** X20. What validation lets through is within the bounds of the schema: the
    body is an object; its zip and description are strings whose trimmed
    length is 5 to 10 and 3 to 5000; its image list is an array of at most
    [MAX_FILES] strings, each one accepted as a URL. *)
Theorem safeParse_sound (env : Env) (b : json) (d : RequestBody) :
  BodySchema_safeParse is_url env b = inl d ->
  exists fields z ds,
    b = JObject fields
    /\ assoc (lit "zip") fields = Some (JString z)
    /\ zip d = trim z /\ 5 <= List.length (zip d) <= 10
    /\ assoc (lit "description") fields = Some (JString ds)
    /\ description d = trim ds /\ 3 <= List.length (description d) <= 5000
    /\ assoc (lit "image_urls") fields = Some (JArray (List.map JString (image_urls d)))
    /\ (Z.of_nat (List.length (image_urls d)) <= MAX_FILES env)%Z
    /\ forallb is_url (image_urls d) = true.
Proof.
  unfold BodySchema_safeParse. destruct b as [| | | | |fields]; try discriminate.
  destruct (Zod.string_trim_min_max 5 10 _ (assoc (lit "zip") fields))
    as [i1 z] eqn:E1.
  destruct (Zod.string_trim_min_max 3 5000 _ (assoc (lit "description") fields))
    as [i2 ds] eqn:E2.
  destruct (Zod.url_array_max is_url (MAX_FILES env) _
              (assoc (lit "image_urls") fields)) as [i3 us] eqn:E3.
  destruct (i1 ++ i2 ++ i3) eqn:E; [|discriminate].
  apply app_eq_nil in E as [-> E]. apply app_eq_nil in E as [-> ->].
  intros [= <-]. cbn [zip description image_urls].
  destruct (string_trim_min_max_ok _ _ _ _ _ E1) as (s1 & A1 & -> & B1).
  destruct (string_trim_min_max_ok _ _ _ _ _ E2) as (s2 & A2 & -> & B2).
  unfold Zod.url_array_max in E3.
  destruct (assoc (lit "image_urls") fields) as [[| | | |l|]|] eqn:A3;
    try discriminate.
  destruct (Zod.url_items is_url _ 0 l) as [issues urls] eqn:U.
  destruct (Z.ltb_spec (MAX_FILES env) (Z.of_nat (List.length l))) as [L|L];
    [discriminate|].
  injection E3 as -> <-.
  destruct (url_items_ok _ _ _ _ U) as [-> F].
  rewrite length_map in L.
  exists fields, s1, s2. repeat split; auto; lia.
Qed.

End SchemaSoundness.

(* ================================================================== *)
(** * More on the upload-signing handler *)

Section SignMore.

Variable env : Env.

Local Open Scope Z_scope.

(** A token request refused for a size leaves the batch counts as they
    were. *)
Theorem size_refusal_leaves_counts (clock : Z) (meta : Sign.Meta)
    (counts : Sign.BatchCounts) :
  let out := Sign.onBeforeGenerateToken env clock meta counts in
  snd out = Some Sign.FileTooLarge \/ snd out = Some Sign.BatchTooLarge ->
  fst out = counts.
Proof.
  cbv zeta. unfold Sign.onBeforeGenerateToken.
  destruct (Sign.Qgtb _ _); [reflexivity|].
  destruct (Sign.Qgtb _ _); [reflexivity|].
  destruct (nonempty _); [|intros [H|H]; discriminate].
  destruct (LRU.get _ _ _ counts) as [got c1].
  destruct (_ <? _); intros [H|H]; discriminate.
Qed.

(** X21. Token requests that name no batch are not counted: any number of them
    within the size limits are all admitted, and the counts stay as they
    were. *)
Theorem unbatched_requests_unlimited (clock : Z) (metas : list Sign.Meta)
    (counts : Sign.BatchCounts) :
  Forall (fun m => or_else (Sign.batchId m) [] = [] /\ sizes_accepted env m) metas ->
  token_requests env clock metas counts
  = (counts, List.map (fun _ => None) metas).
Proof.
  induction 1 as [|m metas (Hid & Hs & Ht) _ IH]; [reflexivity|].
  cbn [token_requests]. unfold Sign.onBeforeGenerateToken.
  rewrite Hs, Ht, Hid. cbn [nonempty]. rewrite IH. reflexivity.
Qed.

Lemma live_count_after_request (clock clock' : Z) (meta : Sign.Meta)
    (counts : Sign.BatchCounts) (id : jsstring) :
  or_else (Sign.batchId meta) [] = id ->
  id <> [] ->
  sizes_accepted env meta ->
  live_count clock' id (fst (Sign.onBeforeGenerateToken env clock meta counts))
  = if negb (clock =? 0) && (RATE_WINDOW_MS <? clock' - clock) then 0
    else live_count clock id counts + 1.
Proof.
  intros Hid Hne [Hs Ht]. unfold Sign.onBeforeGenerateToken.
  rewrite Hs, Ht, Hid. destruct id as [|c id]; [contradiction|].
  cbn [nonempty]. unfold live_count at 2.
  destruct (LRU.get Sign.batchCounts_options clock (c :: id) counts) as [got c1].
  cbn [fst].
  destruct (MAX_FILES env <? _); cbn [fst];
    unfold live_count, LRU.get;
    (rewrite find_set_same by (simpl; lia));
    unfold LRU.stale; cbn [LRU.ttl Sign.batchCounts_options LRU.start];
    change (negb (RATE_WINDOW_MS =? 0)) with true; cbn [andb];
    destruct (negb (clock =? 0) && (RATE_WINDOW_MS <? clock' - clock));
    reflexivity.
Qed.

(** X22. A counted request stamps its batch with the reading of the clock.
    Read again, the count is one higher than the live count was, for as long
    as the reading is at most one time-to-live later; past that it has
    expired and the batch starts from zero. A stamp that reads zero is the
    one exception: such an entry never expires. *)
Theorem count_lives_for_ttl (clock clock' : Z) (meta : Sign.Meta)
    (counts : Sign.BatchCounts) (id : jsstring) :
  or_else (Sign.batchId meta) [] = id ->
  id <> [] ->
  sizes_accepted env meta ->
  live_count clock' id (fst (Sign.onBeforeGenerateToken env clock meta counts))
  = if negb (clock =? 0) && (RATE_WINDOW_MS <? clock' - clock) then 0
    else live_count clock id counts + 1.
Proof. apply live_count_after_request. Qed.

Lemma token_request_outcome (clock : Z) (meta : Sign.Meta)
    (counts : Sign.BatchCounts) (id : jsstring) :
  or_else (Sign.batchId meta) [] = id ->
  id <> [] ->
  sizes_accepted env meta ->
  snd (Sign.onBeforeGenerateToken env clock meta counts)
  = nth_outcome env (live_count clock id counts) 1.
Proof.
  intros Hid Hne [Hs Ht]. unfold Sign.onBeforeGenerateToken, nth_outcome, live_count.
  rewrite Hs, Ht, Hid. destruct id as [|c id]; [contradiction|].
  cbn [nonempty].
  destruct (LRU.get Sign.batchCounts_options clock (c :: id) counts) as [got c1].
  cbn [fst]. change (Z.of_nat 1) with 1.
  destruct (MAX_FILES env <? _); reflexivity.
Qed.

Lemma nth_outcome_shift (live : Z) (i : nat) :
  nth_outcome env (live + 1) i = nth_outcome env live (S i).
Proof.
  unfold nth_outcome. replace (live + 1 + Z.of_nat i) with (live + Z.of_nat (S i))
    by lia. reflexivity.
Qed.

Lemma live_count_next (clock clock' : Z) (meta : Sign.Meta)
    (counts : Sign.BatchCounts) (id : jsstring) :
  or_else (Sign.batchId meta) [] = id ->
  id <> [] ->
  sizes_accepted env meta ->
  clock = 0 \/ clock' - clock <= RATE_WINDOW_MS ->
  live_count clock' id (fst (Sign.onBeforeGenerateToken env clock meta counts))
  = live_count clock id counts + 1.
Proof.
  intros Hid Hne Hs Hgap.
  rewrite (live_count_after_request clock clock' meta counts id Hid Hne Hs).
  destruct (Z.eqb_spec clock 0) as [E|E]; [reflexivity|].
  destruct (Z.ltb_spec RATE_WINDOW_MS (clock' - clock)); [lia|reflexivity].
Qed.

(** X23. Requests of one batch in a row, each with its own payload and its
    own clock reading, none more than a time-to-live after the one before:
    the [i]-th is admitted exactly while the live count plus [i] stays
    within [MAX_FILES], so a fresh batch gets its first [MAX_FILES] requests
    through and no more. *)
Theorem batch_requests_in_a_row (requests : list (Z * Sign.Meta))
    (id : jsstring) (counts : Sign.BatchCounts) :
  id <> [] ->
  Forall (fun r => or_else (Sign.batchId (snd r)) [] = id
                   /\ sizes_accepted env (snd r)) requests ->
  no_expiry_between (List.map fst requests) ->
  snd (token_requests_at env requests counts)
  = List.map
      (nth_outcome env (live_count (hd 0 (List.map fst requests)) id counts))
      (seq 1 (List.length requests)).
Proof.
  intros Hne Hall. revert counts.
  induction Hall as [|[clock meta] rest [Hid Hs] Hall IH]; intros counts Hgap.
  - reflexivity.
  - cbn [token_requests_at List.map fst hd List.length].
    pose proof (token_request_outcome clock meta counts id Hid Hne Hs) as O.
    assert (L : rest <> [] ->
                live_count (hd 0 (List.map fst rest)) id
                  (fst (Sign.onBeforeGenerateToken env clock meta counts))
                = live_count clock id counts + 1).
    { destruct rest as [|[clock' meta'] rest']; [congruence|]. intros _.
      cbn [List.map fst hd]. apply live_count_next; auto.
      cbn [List.map fst no_expiry_between] in Hgap. tauto. }
    assert (Hgap' : no_expiry_between (List.map fst rest)).
    { destruct rest as [|[clock' meta'] rest']; [exact I|].
      cbn [List.map fst no_expiry_between] in Hgap. tauto. }
    destruct (Sign.onBeforeGenerateToken env clock meta counts) as [c1 r].
    cbn [fst snd] in *.
    specialize (IH c1 Hgap').
    destruct (token_requests_at env rest c1) as [c2 rs].
    cbn [snd] in *. cbn [seq List.map]. f_equal; [exact O|].
    rewrite IH. destruct rest as [|r0 rest']; [reflexivity|].
    rewrite L by discriminate.
    rewrite <- (seq_shift (List.length (r0 :: rest')) 1), map_map.
    apply map_ext. intros i. apply nth_outcome_shift.
Qed.

(** The upload-signing handler answers with one of six status codes. *)
Theorem sign_status_codes (run : Sign.Run) (req : Request) (st : Sign.State) :
  In (Sign.statusCode (snd (Sign.handler env run req st)))
     [200; 204; 400; 403; 405; 429]%nat.
Proof.
  unfold Sign.handler.
  destruct (str_eqb (method req) (lit "OPTIONS")); [simpl; tauto|].
  destruct (negb (str_eqb (method req) (lit "POST"))); [simpl; tauto|].
  destruct (Sign.origin_rejected env (origin req)); [simpl; tauto|].
  destruct (rateLimit _ _ _) as [ok c1]. destruct ok; cbn [negb].
  - pose proof (sign_status env run (Sign.batchCounts st)) as S.
    destruct (Sign.sign env run (Sign.batchCounts st)) as [c [status ct]].
    simpl in *. destruct S as [-> | ->]; tauto.
  - simpl; tauto.
Qed.

(** X24. With an allow-list that is not empty, a POST whose origin is absent or
    outside the list is answered 403 and leaves both caches as they were. *)
Theorem sign_disallowed_origin (run : Sign.Run) (req : Request) (st : Sign.State) :
  allowedOrigins env <> [] ->
  method req = lit "POST" ->
  (origin req = None
   \/ exists o, origin req = Some o /\ includes (allowedOrigins env) o = false) ->
  Sign.handler env run req st
  = (st, Sign.Build_Response 403 None (Sign.Plain (lit "Forbidden"))).
Proof.
  intros Hl Hm Ho. unfold Sign.handler. rewrite Hm.
  change (str_eqb (lit "POST") (lit "OPTIONS")) with false.
  change (str_eqb (lit "POST") (lit "POST")) with true.
  cbn [negb]. unfold Sign.origin_rejected, Sign.setCors.
  destruct (allowedOrigins env) as [|a l] eqn:E; [contradiction|].
  unfold Estimate.origin_rejected. rewrite E.
  destruct Ho as [-> | (o & -> & Hin)]; [reflexivity|].
  destruct o as [|c o]; [reflexivity|]. rewrite Hin. reflexivity.
Qed.

(** X25. The batch counts change only on a token request that has passed the
    method, origin and rate checks. *)
Theorem counts_change_only_on_token_requests (run : Sign.Run) (req : Request)
    (st : Sign.State) :
  Sign.batchCounts (fst (Sign.handler env run req st)) <> Sign.batchCounts st ->
  method req = lit "POST"
  /\ Sign.origin_rejected env (origin req) = false
  /\ fst (rateLimit (Sign.date_now run) (getIP req) (Sign.rateCache st)) = true
  /\ exists pathname meta ok, Sign.event run = Sign.GenerateToken pathname meta ok.
Proof.
  unfold Sign.handler.
  destruct (str_eqb (method req) (lit "OPTIONS")) eqn:Eo;
    [intros H; exfalso; apply H; reflexivity|].
  destruct (str_eqb (method req) (lit "POST")) eqn:Ep; cbn [negb];
    [|intros H; exfalso; apply H; reflexivity].
  destruct (Sign.origin_rejected env (origin req));
    [intros H; exfalso; apply H; reflexivity|].
  destruct (rateLimit _ _ _) as [ok c1]. destruct ok; cbn [negb];
    [|intros H; exfalso; apply H; reflexivity].
  unfold Sign.sign.
  destruct (Sign.event run) as [|p meta tok|ok];
    [intros H; exfalso; apply H; reflexivity| |
     destruct ok; intros H; exfalso; apply H; reflexivity].
  intros _. apply str_eqb_eq in Ep. repeat split; auto. eauto.
Qed.

End SignMore.

(* ================================================================== *)
(** * The admin endpoints *)

Section AdminFacts.

Local Open Scope nat_scope.

Lemma starts_with_app (p s : jsstring) : starts_with p (p ++ s) = true.
Proof.
  apply starts_with_spec.
  rewrite <- (Nat.add_0_r (List.length p)), firstn_app_2. simpl. apply app_nil_r.
Qed.

Lemma skipn_app_exact {A} (p s : list A) : skipn (List.length p) (p ++ s) = s.
Proof.
  rewrite skipn_app, skipn_all, Nat.sub_diag. reflexivity.
Qed.

Lemma firstn_app_exact {A} (p s : list A) : firstn (List.length p) (p ++ s) = p.
Proof.
  rewrite <- (Nat.add_0_r (List.length p)), firstn_app_2. simpl. apply app_nil_r.
Qed.

Lemma or_else_nil (s : jsstring) : or_else (Some s) [] = s.
Proof. destruct s; reflexivity. Qed.

Lemma bearer_split (auth : jsstring) :
  starts_with (lit "Bearer ") auth = true ->
  auth = lit "Bearer " ++ skipn 7 auth.
Proof.
  intros H. apply starts_with_spec in H.
  change (List.length (lit "Bearer ")) with 7 in H.
  transitivity (firstn 7 auth ++ skipn 7 auth);
    [symmetry; apply firstn_skipn | rewrite H; reflexivity].
Qed.

(** X26. The bearer gate lets a request through exactly when an admin token is
    configured, is not empty, and the header is [Bearer], a space and that
    token. *)
Theorem admin_authorized_iff (ADMIN_TOKEN_var authorization : option jsstring) :
  Admin.authorized ADMIN_TOKEN_var authorization = true
  <-> exists t, t <> []
                /\ ADMIN_TOKEN_var = Some t
                /\ authorization = Some (lit "Bearer " ++ t).
Proof.
  unfold Admin.authorized, Admin.bearer_token. split.
  - rewrite andb_true_iff, nonempty_true, str_eqb_eq. intros [Hne E].
    destruct ADMIN_TOKEN_var as [[|c t]|]; try (exfalso; apply Hne; reflexivity).
    cbn [or_else] in *. exists (c :: t). split; [discriminate|]. split; auto.
    destruct (starts_with (lit "Bearer ") (or_else authorization [])) eqn:S;
      [|discriminate].
    apply bearer_split in S. rewrite E in S.
    destruct authorization as [[|a auth]|]; cbn [or_else] in S;
      try discriminate.
    rewrite S. reflexivity.
  - intros (t & Hne & -> & ->). destruct t as [|c t]; [contradiction|].
    rewrite !or_else_nil, starts_with_app.
    change 7 with (List.length (lit "Bearer ")). rewrite skipn_app_exact.
    cbn [nonempty andb]. apply str_eqb_refl.
Qed.

(** X27. The listing endpoint accepts a request exactly when an admin token is
    configured, is not empty, and either the query token is that token, or
    there is no query token and the header is [Bearer], a space and that
    token: a query token that is wrong is not made good by the header. *)
Theorem authOk_iff (ADMIN_TOKEN_var qToken authorization : option jsstring) :
  Admin.authOk ADMIN_TOKEN_var qToken authorization = true
  <-> exists t, t <> []
                /\ ADMIN_TOKEN_var = Some t
                /\ (qToken = Some t
                    \/ ((qToken = None \/ qToken = Some [])
                        /\ authorization = Some (lit "Bearer " ++ t))).
Proof.
  unfold Admin.authOk. split.
  - destruct qToken as [[|c q]|].
    + destruct (starts_with (lit "Bearer ") (or_else authorization [])) eqn:S;
        [|discriminate].
      destruct (skipn 7 (or_else authorization [])) as [|c t] eqn:K;
        [discriminate|].
      destruct ADMIN_TOKEN_var as [admin|]; [|discriminate].
      intros E. apply str_eqb_eq in E. subst admin.
      exists (c :: t). split; [discriminate|]. split; auto. right. split; auto.
      apply bearer_split in S. rewrite K in S.
      destruct authorization as [[|a auth]|]; cbn [or_else] in S;
        try discriminate.
      rewrite S. reflexivity.
    + destruct ADMIN_TOKEN_var as [admin|]; [|discriminate].
      intros E. apply str_eqb_eq in E. subst admin.
      exists (c :: q). split; [discriminate|]. auto.
    + destruct (starts_with (lit "Bearer ") (or_else authorization [])) eqn:S;
        [|discriminate].
      destruct (skipn 7 (or_else authorization [])) as [|c t] eqn:K;
        [discriminate|].
      destruct ADMIN_TOKEN_var as [admin|]; [|discriminate].
      intros E. apply str_eqb_eq in E. subst admin.
      exists (c :: t). split; [discriminate|]. split; auto. right. split; auto.
      apply bearer_split in S. rewrite K in S.
      destruct authorization as [[|a auth]|]; cbn [or_else] in S;
        try discriminate.
      rewrite S. reflexivity.
  - intros (t & Hne & -> & H). destruct t as [|c t]; [contradiction|].
    destruct H as [-> | [Hq ->]].
    + apply str_eqb_refl.
    + rewrite or_else_nil, starts_with_app.
      change 7 with (List.length (lit "Bearer ")). rewrite skipn_app_exact.
      destruct Hq as [-> | ->]; apply str_eqb_refl.
Qed.

(** The page size is always between 1 and 200, whatever the query holds. *)
Theorem lim_in_range (limit : option jsstring) :
  (1 <= Admin.lim limit <= 200)%Z.
Proof. unfold Admin.lim. lia. Qed.

Lemma date_shaped_length (d : jsstring) :
  Admin.date_shaped d = true -> List.length d = 10.
Proof.
  intros H.
  destruct d as [|a1 [|a2 [|a3 [|a4 [|a5 [|a6 [|a7 [|a8 [|a9 [|a10 [|a11 r]]]]]]]]]]];
    try reflexivity; exfalso; unfold Admin.date_shaped in H;
    try discriminate H;
    repeat match type of H with
           | context [match ?x with _ => _ end] =>
               is_var x; destruct x; try discriminate H
           end.
Qed.

Lemma strip_suffix_app (suf s : jsstring) :
  Admin.strip_suffix suf (s ++ suf) = Some s.
Proof.
  unfold Admin.strip_suffix. rewrite length_app, Nat.add_sub.
  rewrite skipn_app_exact, firstn_app_exact, str_eqb_refl. reflexivity.
Qed.

(** X28. The listing endpoint reads back what the storing handler wrote: a key
    built from a date, a five-digit zip and a time stamp parses into those
    three parts. *)
Theorem parseKey_resultKey (dateStamp safeZip ts : jsstring) :
  Admin.date_shaped dateStamp = true ->
  List.length safeZip = 5 ->
  Admin.all_digits safeZip = true ->
  ts <> [] ->
  existsb Admin.is_line_terminator ts = false ->
  Admin.parseKey (Admin.resultKey dateStamp safeZip ts)
  = Some (dateStamp, safeZip, ts).
Proof.
  intros Hd Hl Hz Hne Hlt. unfold Admin.parseKey, Admin.resultKey.
  rewrite starts_with_app.
  match goal with
  | |- context [skipn 8 (lit "results/" ++ ?r)] =>
      change (skipn 8 (lit "results/" ++ r)) with r
  end.
  pose proof (date_shaped_length _ Hd) as Ld.
  rewrite <- Ld, firstn_app_exact, skipn_app_exact.
  cbn [lit List.map list_ascii_of_string N_of_ascii app].
  change (N_of_ascii "/") with 47%N. change (N_of_ascii "-") with 45%N.
  rewrite <- Hl, firstn_app_exact, skipn_app_exact.
  change (45%N :: ts ++ _) with (45%N :: ts ++ lit ".json").
  rewrite strip_suffix_app, Hd, Hz, Hlt, Nat.eqb_refl.
  apply nonempty_true in Hne. rewrite Hne. reflexivity.
Qed.

Lemma strip_suffix_inv (suf s t : jsstring) :
  Admin.strip_suffix suf s = Some t -> s = t ++ suf.
Proof.
  unfold Admin.strip_suffix.
  destruct (str_eqb (skipn (List.length s - List.length suf) s) suf) eqn:E;
    [|discriminate].
  apply str_eqb_eq in E. intros [= <-].
  rewrite <- E at 2. symmetry. apply firstn_skipn.
Qed.

(** X29. Conversely, the only keys the listing endpoint reads a date, a zip and
    a time stamp from are the keys of that form. *)
Theorem parseKey_only_result_keys (key date zip ts : jsstring) :
  Admin.parseKey key = Some (date, zip, ts) ->
  key = Admin.resultKey date zip ts
  /\ Admin.date_shaped date = true
  /\ List.length zip = 5 /\ Admin.all_digits zip = true
  /\ ts <> [] /\ existsb Admin.is_line_terminator ts = false.
Proof.
  unfold Admin.parseKey.
  destruct (starts_with (lit "results/") key) eqn:S; [|discriminate].
  apply starts_with_spec in S.
  change (List.length (lit "results/")) with 8 in S.
  pose proof (firstn_skipn 8 key) as K. rewrite S in K. clear S.
  remember (skipn 8 key) as r1 eqn:E1. clear E1.
  pose proof (firstn_skipn 10 r1) as K1.
  remember (firstn 10 r1) as d eqn:Ed. clear Ed.
  destruct (skipn 10 r1) as [|c r2]; [discriminate|].
  destruct (N.eqb_spec c 47) as [->|Hc];
    [|destruct c as [|p]; try discriminate;
      do 6 (destruct p as [p|p|]; try discriminate); congruence].
  pose proof (firstn_skipn 5 r2) as K2.
  remember (firstn 5 r2) as z eqn:Ez. clear Ez.
  destruct (skipn 5 r2) as [|c r3]; [discriminate|].
  destruct (N.eqb_spec c 45) as [->|Hc];
    [|destruct c as [|p]; try discriminate;
      do 6 (destruct p as [p|p|]; try discriminate); congruence].
  destruct (Admin.strip_suffix (lit ".json") r3) as [t|] eqn:R3; [|discriminate].
  apply strip_suffix_inv in R3.
  destruct (Admin.date_shaped d) eqn:D; [|discriminate].
  destruct (Nat.eqb_spec (List.length z) 5) as [L|L]; [|discriminate].
  destruct (Admin.all_digits z) eqn:Z; [|discriminate].
  destruct (nonempty t) eqn:Ne; [|discriminate].
  destruct (existsb Admin.is_line_terminator t) eqn:Lt; [discriminate|].
  cbn [andb negb]. intros [= <- <- <-].
  apply nonempty_true in Ne. repeat split; auto.
  unfold Admin.resultKey. subst r3 r2 r1. symmetry. exact K.
Qed.

End AdminFacts.

(* ================================================================== *)
(** * The further theorems at concrete inputs *)

Lemma plain_object_extracted_witness :
  extractJsonLoose JSON_parse plain_text = JObject [(lit "b", two)]
  /\ extractJsonLoose JSON_parse unclosed_fence_text = JObject [(lit "a", one)].
Proof.
  split.
  - apply (plain_object_extracted JSON_parse (lit "prefix ") (qlit "'b':2")
             (lit " suffix")).
    + apply fence_exec_no_fence. vm_compute. reflexivity.
    + vm_compute. intuition discriminate.
    + vm_compute. intuition discriminate.
    + vm_compute. reflexivity.
  - apply (plain_object_extracted JSON_parse (lit "```json ") (qlit "'a':1") []).
    + apply fence_exec_no_fence. vm_compute. reflexivity.
    + vm_compute. intuition discriminate.
    + vm_compute. intuition discriminate.
    + vm_compute. reflexivity.
Defined.

Lemma no_brace_nothing_extracted_witness :
  extractJsonLoose JSON_parse (lit "no braces here") = JNull
  /\ extractJsonLoose JSON_parse unclosed_bare_text = JNull.
Proof.
  split.
  - apply no_brace_nothing_extracted.
    + apply fence_exec_no_fence. vm_compute. reflexivity.
    + left. vm_compute. intuition discriminate.
  - apply no_brace_nothing_extracted.
    + apply fence_exec_no_fence. vm_compute. reflexivity.
    + left. vm_compute. intuition discriminate.
Defined.

Lemma repair_without_comma_witness :
  repair (qlit "{'a':[1 2]}") = qlit "{'a':[1 2]}".
Proof.
  apply repair_without_comma. vm_compute. intuition discriminate.
Defined.

Lemma rateLimit_records_bounded_witness :
  records_bounded (snd (rateLimit 0 sample_client [])).
Proof.
  apply rateLimit_records_bounded.
  intros ip. unfold recorded, RATE_MAX. simpl. lia.
Defined.

Lemma rateLimit_cache_size_witness :
  (List.length (snd (rateLimit 5000 sample_client five_recorded)) <= 5000)%nat.
Proof.
  apply rateLimit_cache_size.
  replace (List.length five_recorded) with 1%nat by (vm_compute; reflexivity).
  lia.
Defined.

Lemma rateLimit_other_client_witness :
  recorded sample_client (snd (rateLimit 9 other_client five_recorded))
  = recorded sample_client five_recorded
  \/ recorded sample_client (snd (rateLimit 9 other_client five_recorded)) = [].
Proof.
  apply rateLimit_other_client. discriminate.
Defined.

Lemma other_clients_untouched_with_room_witness :
  recorded sample_client (snd (rateLimit 9 other_client five_recorded))
  = recorded sample_client five_recorded.
Proof.
  apply other_clients_untouched_with_room.
  - discriminate.
  - replace (List.length five_recorded) with 1%nat by (vm_compute; reflexivity).
    lia.
Defined.

Lemma sixth_in_window_rejected_witness :
  fst (rateLimit_calls sample_client [0; 1000; 2000; 3000; 4000; 5000]%Z [])
  = [true; true; true; true; true; false].
Proof.
  apply sixth_in_window_rejected.
  - reflexivity.
  - lia.
  - unfold RATE_WINDOW_MS. lia.
Defined.

Lemma sixth_after_window_admitted_witness :
  fst (rateLimit_calls sample_client [0; 1000; 2000; 3000; 4000; 600000]%Z [])
  = [true; true; true; true; true; true].
Proof.
  apply sixth_after_window_admitted.
  - reflexivity.
  - lia.
  - unfold RATE_WINDOW_MS. lia.
  - unfold RATE_WINDOW_MS. lia.
Defined.

Lemma getIP_forwarded_witness :
  getIP sample_request = trim sample_client.
Proof.
  apply getIP_forwarded.
  - discriminate.
  - vm_compute. intuition discriminate.
  - right. exists (lit " 10.0.0.1"). reflexivity.
Defined.

Lemma allow_list_membership_witness :
  includes (allowedOrigins sample_env) (lit "https://www.example.com") = true.
Proof.
  apply (allow_list_membership sample_env sample_entries).
  - reflexivity.
  - repeat constructor; vm_compute; intuition discriminate.
  - split; [discriminate|].
    exists (lit " https://www.example.com"). split.
    + right. left. reflexivity.
    + reflexivity.
Defined.

Lemma allow_list_entries_clean_witness :
  lit "https://example.com" <> []
  /\ trim (lit "https://example.com") = lit "https://example.com"
  /\ ~ In 44 (lit "https://example.com").
Proof.
  apply (allow_list_entries_clean sample_env).
  left. reflexivity.
Defined.

Lemma other_methods_leave_cache_witness :
  fst (Estimate.handler JSON_parse sample_is_url sample_env (run_at 5000 true)
         (with_method (lit "GET") sample_request) five_recorded)
  = five_recorded.
Proof.
  apply other_methods_leave_cache. discriminate.
Defined.

Lemma cors_echoes_allowed_origin_witness :
  origin sample_request = Some (lit "https://example.com")
  /\ In (lit "https://example.com") (allowedOrigins sample_env).
Proof.
  apply (cors_echoes_allowed_origin JSON_parse sample_is_url sample_env
           (run_at 0 true) sample_request []).
  vm_compute. reflexivity.
Defined.

Lemma admitted_slot_is_spent_witness :
  recorded (getIP sample_request)
    (fst (Estimate.handler JSON_parse sample_is_url sample_env
            (run_at 7000 false) sample_request []))
  = [7000%Z].
Proof.
  apply (admitted_slot_is_spent JSON_parse sample_is_url sample_env
           (run_at 7000 false) sample_request []); reflexivity.
Defined.

Lemma downstream_failure_fallback_witness :
  snd (Estimate.handler JSON_parse sample_is_url sample_env
         (run_at 0 false) sample_request [])
  = Build_Response 200 (Some (lit "https://example.com"))
      (Quote true default_fallback_line (JObject [])).
Proof.
  apply (downstream_failure_fallback JSON_parse sample_is_url sample_env
           (run_at 0 false) sample_request []); try reflexivity.
  right. exists sample_body, sample_data.
  split; [vm_compute; reflexivity|]. split; [vm_compute; reflexivity|].
  right. reflexivity.
Defined.

Lemma customer_line_never_empty_witness :
  lit "We are outside of the area we serve." <> [].
Proof.
  apply (customer_line_never_empty JSON_parse sample_is_url sample_env
           (run_at 0 true) sample_request [] false _
           (JObject [(lit "serviceable", JBool false)])).
  vm_compute. reflexivity.
Defined.

Lemma empty_body_three_issues_witness :
  statusCode (snd (Estimate.handler JSON_parse sample_is_url sample_env
                     (run_at 0 true) (with_body [] sample_request) []))
  = 400%nat.
Proof.
  rewrite (empty_body_three_issues JSON_parse sample_is_url sample_env
             (run_at 0 true) (with_body [] sample_request) []);
    reflexivity.
Defined.

Lemma safeParse_sound_witness :
  (5 <= List.length (zip sample_data) <= 10)%nat.
Proof.
  destruct (safeParse_sound sample_is_url sample_env sample_body sample_data)
    as (fields & z & ds & _ & _ & _ & Hz & _).
  - vm_compute. reflexivity.
  - exact Hz.
Defined.

Lemma unbatched_requests_unlimited_witness :
  token_requests default_env 0 (repeat unbatched_file 20) []
  = ([], List.map (fun _ => None) (repeat unbatched_file 20)).
Proof.
  apply unbatched_requests_unlimited.
  apply Forall_forall. intros m Hm. apply repeat_spec in Hm. subst m.
  repeat split; reflexivity.
Defined.

Lemma count_lives_for_ttl_witness :
  live_count 601000 (lit "b")
    (fst (Sign.onBeforeGenerateToken default_env 1000 small_file [])) = 1%Z
  /\ live_count 601001 (lit "b")
       (fst (Sign.onBeforeGenerateToken default_env 1000 small_file [])) = 0%Z
  /\ live_count 600001 (lit "b")
       (fst (Sign.onBeforeGenerateToken default_env 0 small_file [])) = 1%Z.
Proof.
  split; [|split].
  - apply (count_lives_for_ttl default_env 1000 601000 small_file [] (lit "b")
             eq_refl).
    + discriminate.
    + split; reflexivity.
  - apply (count_lives_for_ttl default_env 1000 601001 small_file [] (lit "b")
             eq_refl).
    + discriminate.
    + split; reflexivity.
  - apply (count_lives_for_ttl default_env 0 600001 small_file [] (lit "b")
             eq_refl).
    + discriminate.
    + split; reflexivity.
Defined.

Lemma batch_requests_in_a_row_witness :
  snd (token_requests_at default_env varied_batch [])
  = repeat None 12 ++ repeat (Some Sign.TooManyFiles) 2.
Proof.
  rewrite (batch_requests_in_a_row default_env varied_batch (lit "b") []).
  - reflexivity.
  - discriminate.
  - unfold varied_batch. apply Forall_forall. intros r Hr.
    apply in_map_iff in Hr. destruct Hr as (i & <- & Hi).
    apply in_seq in Hi. split; [reflexivity|].
    assert (C : In i (seq 1 14)) by (apply in_seq; exact Hi).
    cbn [seq In] in C.
    repeat (destruct C as [<-|C]; [split; reflexivity|]). contradiction.
  - vm_compute. repeat split; right; intros H; discriminate H.
Defined.

Lemma sign_disallowed_origin_witness :
  Sign.handler sample_env token_run
    (with_origin (Some (lit "https://evil.example")) sample_request) fresh_state
  = (fresh_state, Sign.Build_Response 403 None (Sign.Plain (lit "Forbidden"))).
Proof.
  apply sign_disallowed_origin.
  - discriminate.
  - reflexivity.
  - right. exists (lit "https://evil.example"). split; reflexivity.
Defined.

Lemma counts_change_only_on_token_requests_witness :
  exists pathname meta ok,
    Sign.event token_run = Sign.GenerateToken pathname meta ok.
Proof.
  apply (counts_change_only_on_token_requests sample_env token_run
           sample_request fresh_state).
  intros H. vm_compute in H. discriminate H.
Defined.

Lemma parseKey_resultKey_witness :
  Admin.parseKey
    (Admin.resultKey (lit "2025-08-24") (lit "06226")
       (lit "2025-08-24T12-34-56-789Z"))
  = Some (lit "2025-08-24", lit "06226", lit "2025-08-24T12-34-56-789Z").
Proof.
  apply parseKey_resultKey; try reflexivity. discriminate.
Defined.

Lemma parseKey_only_result_keys_witness :
  lit "results/2025-08-24/06226-x.json"
  = Admin.resultKey (lit "2025-08-24") (lit "06226") (lit "x").
Proof.
  apply (parseKey_only_result_keys (lit "results/2025-08-24/06226-x.json")
           (lit "2025-08-24") (lit "06226") (lit "x")).
  reflexivity.
Defined.
